(** * goimage: the image ingestion core (backend/internal/service)

    A shallow embedding of the Go service layer: the MIME sniffer, the
    image processor, the JSON-file metadata store and the orchestrating
    image service, together with the handler's error classification.

    State is passed explicitly.  Everything the service touches outside its
    own memory (the file system holding metadata.json, the storage backend,
    the clock, the identifier source) lives in a [World]; every call that
    reaches the outside appends an [Event] to the world's trace, in program
    order. *)

From stdpp Require Import base option gmap strings list sorting pretty.
From Stdlib Require Import ZArith Lia Ascii.

Local Open Scope Z_scope.

(** ** Go values *)

Module Go.

(** [[]byte] *)
Abbreviation bytes := (list Byte.byte).

#[global] Instance byte_eq_dec : EqDecision Byte.byte := Byte.byte_eq_dec.

(** [[]byte("...")]: the bytes of a string literal. *)
Definition bytes_of (s : string) : bytes := String.list_byte_of_string s.

(** Errno values package os reports through [*fs.PathError]. *)
Inductive Errno := ENOENT | EACCES | EISDIR | EIO | ENOSPC | EROFS.

#[global] Instance Errno_eq_dec : EqDecision Errno.
Proof. solve_decision. Defined.

Definition Errno_Error (e : Errno) : string :=
  match e with
  | ENOENT => "no such file or directory"
  | EACCES => "permission denied"
  | EISDIR => "is a directory"
  | EIO => "input/output error"
  | ENOSPC => "no space left on device"
  | EROFS => "read-only file system"
  end.

(** The [error] values that flow through the service.  The dynamic type of
    a Go error is the constructor; [fmt.Errorf] yields [errorString]
    without the [%w] verb and [wrapError] with it. *)
Inductive error : Type :=
| errorString (s : string)
| wrapError (msg : string) (err : error)
| PathError (Op Path : string) (Err : Errno)
| SyntaxError (msg : string)
| LibError (pkg msg : string).

(** The [Error() string] method. *)
Definition Error (e : error) : string :=
  match e with
  | errorString s => s
  | wrapError msg _ => msg
  | PathError op path err => op +:+ " " +:+ path +:+ ": " +:+ Errno_Error err
  | SyntaxError msg => msg
  | LibError _ msg => msg
  end.

(** [fmt.Errorf(prefix + "%s", arg)] *)
Definition fmt_Errorf_s (prefix arg : string) : error :=
  errorString (prefix +:+ arg).

(** [fmt.Errorf(prefix + "%w", err)] *)
Definition fmt_Errorf_w (prefix : string) (err : error) : error :=
  wrapError (prefix +:+ Error err) err.

(** [os.IsNotExist]: looks at the error itself (a [*PathError] carrying
    ENOENT); it does not unwrap [fmt] wrappers. *)
Definition os_IsNotExist (e : error) : bool :=
  match e with
  | PathError _ _ ENOENT => true
  | _ => false
  end.

(** What a caller can inspect of an error without reading any message:
    its dynamic type, the wrapped chain ([errors.Unwrap], [errors.As]) and
    the errno of a path error. *)
Inductive ErrShape : Type :=
| ShString
| ShWrap (inner : ErrShape)
| ShPath (e : Errno)
| ShSyntax
| ShLib (pkg : string).

Fixpoint shape (e : error) : ErrShape :=
  match e with
  | errorString _ => ShString
  | wrapError _ err => ShWrap (shape err)
  | PathError _ _ en => ShPath en
  | SyntaxError _ => ShSyntax
  | LibError pkg _ => ShLib pkg
  end.

(** *** [int]: 64-bit two's complement *)

Definition int_min : Z := - 2 ^ 63.
Definition int_max : Z := 2 ^ 63 - 1.
Definition is_int (z : Z) : Prop := int_min <= z <= int_max.

Definition wrap (z : Z) : Z := (z + 2 ^ 63) mod 2 ^ 64 - 2 ^ 63.

Definition int_add (a b : Z) : Z := wrap (a + b).
Definition int_sub (a b : Z) : Z := wrap (a - b).
Definition int_mul (a b : Z) : Z := wrap (a * b).
(** [a / b] and [a % b] truncate towards zero. *)
Definition int_div (a b : Z) : Z := wrap (Z.quot a b).
Definition int_rem (a b : Z) : Z := Z.rem a b.

(** [%d] *)
Definition fmt_d (n : Z) : string := pretty n.

(** [%02d]: zero-padded to width two (the sign counts for the width). *)
Definition fmt_02d (n : Z) : string :=
  if (0 <=? n) && (n <? 10) then "0" +:+ pretty n else pretty n.

(** [s[lo:hi]] on a slice; out-of-range bounds panic ([None]). *)
Definition slice {A} (l : list A) (lo hi : Z) : option (list A) :=
  if (0 <=? lo) && (lo <=? hi) && (hi <=? Z.of_nat (length l))
  then Some (take (Z.to_nat (hi - lo)) (drop (Z.to_nat lo) l))
  else None.

(** [strings.HasPrefix]-style test used for [s[:len(p)] == p]. *)
Fixpoint has_prefix (p s : string) : bool :=
  match p, s with
  | EmptyString, _ => true
  | String a p', String b s' => if Ascii.eqb a b then has_prefix p' s' else false
  | String _ _, EmptyString => false
  end.

(** [s[n:]] for [n <= len(s)]. *)
Fixpoint string_drop (n : nat) (s : string) : string :=
  match n, s with
  | O, _ => s
  | S n', String _ s' => string_drop n' s'
  | S _, EmptyString => EmptyString
  end.

(** [filepath.Ext] (Unix): the suffix from the last dot of the last path
    element, empty if there is none. *)
Fixpoint Ext_go (rpath : list Ascii.ascii) (acc : string) : string :=
  match rpath with
  | [] => ""
  | c :: r =>
      if Ascii.eqb c "/"%char then ""
      else if Ascii.eqb c "."%char then String c acc
      else Ext_go r (String c acc)
  end.

Definition filepath_Ext (path : string) : string :=
  Ext_go (reverse (String.list_ascii_of_string path)) "".

(** [filepath.SplitList] (Unix): splits on the list separator [':'];
    the empty string gives the empty list. *)
Fixpoint split_colon (s : list Ascii.ascii) (cur : string) : list string :=
  match s with
  | [] => [String.rev cur]
  | c :: r =>
      if Ascii.eqb c ":"%char then String.rev cur :: split_colon r ""
      else split_colon r (String c cur)
  end.

Definition filepath_SplitList (path : string) : list string :=
  if String.eqb path "" then [] else split_colon (String.list_ascii_of_string path) "".

End Go.

Import Go.

(** ** image_processor.go: content sniffing *)

(** [header[i] == b], for an index the guards have shown in range. *)
Definition byte_is (header : bytes) (i : nat) (b : Byte.byte) : bool :=
  bool_decide (header !! i = Some b).

Definition detectMimeFromHeader (header : bytes) : string :=
  if (length header <? 4)%nat then "application/octet-stream"
  else if byte_is header 0 Byte.xff && byte_is header 1 Byte.xd8 && byte_is header 2 Byte.xff
  then "image/jpeg"
  else if (8 <=? length header)%nat &&
          byte_is header 0 Byte.x89 && byte_is header 1 Byte.x50 &&
          byte_is header 2 Byte.x4e && byte_is header 3 Byte.x47 &&
          byte_is header 4 Byte.x0d && byte_is header 5 Byte.x0a &&
          byte_is header 6 Byte.x1a && byte_is header 7 Byte.x0a
  then "image/png"
  else if (12 <=? length header)%nat &&
          byte_is header 0 Byte.x52 && byte_is header 1 Byte.x49 &&
          byte_is header 2 Byte.x46 && byte_is header 3 Byte.x46 &&
          byte_is header 8 Byte.x57 && byte_is header 9 Byte.x45 &&
          byte_is header 10 Byte.x42 && byte_is header 11 Byte.x50
  then "image/webp"
  else "application/octet-stream".

Fixpoint ValidateMimeType (mimeType : string) (allowedTypes : list string) : bool :=
  match allowedTypes with
  | [] => false
  | t :: rest => if String.eqb t mimeType then true else ValidateMimeType mimeType rest
  end.

(** ** Package model *)

Module model.

Definition CodeSuccess : Z := 0.
Definition CodeBadRequest : Z := 400.
Definition CodeNotFound : Z := 404.
Definition CodeInternalError : Z := 500.
Definition CodeInvalidFileType : Z := 1001.
Definition CodeFileTooLarge : Z := 1002.
Definition CodeProcessingFailed : Z := 1003.
Definition CodeStorageFailed : Z := 1004.

(** [time.Time]: the instant (compared by [After]) and the calendar fields
    the service reads. *)
Record Time := { unixNano : Z; Year : Z; Month : Z }.

Definition After (t u : Time) : bool := unixNano u <? unixNano t.

Record Image := {
  ID : string;
  URL : string;
  OriginalFormat : string;
  OriginalSize : Z;
  ProcessedSize : Z;
  Width : Z;
  Height : Z;
  CreatedAt : Time;
  Filename : string;
  StoragePath : string;
}.

Record ImageListItem := {
  item_ID : string;
  item_URL : string;
  item_ThumbnailURL : string;
  item_OriginalFormat : string;
  item_ProcessedSize : Z;
  item_Width : Z;
  item_Height : Z;
  item_CreatedAt : Time;
}.

Record UploadResult := {
  res_ID : string;
  res_URL : string;
  res_OriginalFormat : string;
  res_OriginalSize : Z;
  res_ProcessedSize : Z;
  res_Width : Z;
  res_Height : Z;
  res_CreatedAt : Time;
}.

Record PaginatedList := {
  pl_Items : list ImageListItem;
  pl_Total : Z;
  pl_Page : Z;
  pl_PageSize : Z;
  pl_TotalPages : Z;
}.

End model.

Import model.

(** ** Package config (the part the service reads) *)

Module config.

Record ImageConfig := {
  Quality : Z;
  MaxSize : Z;
  AllowedTypes : list string;
}.

Record Config := { Image_ : ImageConfig }.

Definition DefaultConfig : Config :=
  {| Image_ := {| Quality := 75;
                  MaxSize := 10 * 1024 * 1024;
                  AllowedTypes := ["image/jpeg"; "image/png"; "image/webp"] |} |}.

End config.

(** ** Collaborators outside the repository

    The decoders, the EXIF reader, the [imaging] transforms, the WebP
    encoder, [encoding/json] and the storage backend are taken as
    interfaces; every result below holds for all their implementations. *)

(** [image/jpeg], [image/png], [golang.org/x/image/webp],
    [github.com/chai2010/webp], [github.com/rwcarlsen/goexif/exif],
    [github.com/disintegration/imaging]. *)
Class Imaging := {
  image : Type;
  Bounds_Dx : image → Z;
  Bounds_Dy : image → Z;
  jpeg_Decode : bytes → image + error;
  png_Decode : bytes → image + error;
  xwebp_Decode : bytes → image + error;
  (** [webp.Encode(&buf, img, &webp.Options{Lossless, Quality})] *)
  webp_Encode : image → bool → Z → bytes + error;
  Exif : Type;
  Tag : Type;
  exif_Decode : bytes → Exif + error;
  (** [x.Get(exif.Orientation)] *)
  exif_Get_Orientation : Exif → Tag + error;
  (** [tag.Int(0)] *)
  tag_Int0 : Tag → Z + error;
  imaging_FlipH : image → image;
  imaging_Rotate180 : image → image;
  imaging_FlipV : image → image;
  imaging_Transpose : image → image;
  imaging_Rotate270 : image → image;
  imaging_Transverse : image → image;
  imaging_Rotate90 : image → image;
}.

(** [encoding/json] at the type [map[string]*model.Image].  A failure is
    reported by the message of the json error; [json_Unmarshal] decodes into
    the map it is handed and may have stored entries before it fails. *)
Class JSON := {
  json_MarshalIndent : gmap string Image → bytes + string;
  json_Unmarshal : bytes → gmap string Image → gmap string Image * option string;
}.

(** [storage.Storage]: [Save(ctx, path, reader) (url, error)] and
    [Delete(ctx, path) error] over the backend's own state. *)
Class Storage := {
  backend : Type;
  storage_Save : backend → string → bytes → backend * (string + error);
  storage_Delete : backend → string → backend * option error;
}.

(** ** The world outside the service *)

(** What a path holds: a regular file with its bytes, a directory, or a
    file the process may not open.  A path that holds nothing is absent
    from [files]. *)
Inductive File :=
| Regular (data : bytes)
| Directory
| Unreadable.

(** The file system: the files by path, and whether writing a file or
    renaming one fails (and with which errno).  A failing write fails when
    the file is opened. *)
Record FileSystem := {
  files : gmap string File;
  write_fault : option Errno;
  rename_fault : option Errno;
}.

(** The calls that leave the service, as they appear in the trace: the
    store's mutex, package os, the storage backend, and package log (which
    [main] and the request logger write to). *)
Inductive Event :=
| EvLock
| EvUnlock
| EvReadFile (path : string)
| EvWriteFile (path : string) (data : bytes)
| EvRename (oldpath newpath : string)
| EvRemove (path : string)
| EvStorageSave (key : string) (content : bytes)
| EvStorageDelete (key : string)
| EvLog (msg : string).

Record World `{Storage} := {
  fs : FileSystem;
  objects : backend;
  clock : Time;
  uuids : nat → string;
  uuid_next : nat;
  trace : list Event;
}.

Section world.
Context `{Storage}.

Definition emit (ev : Event) (w : World) : World :=
  {| fs := fs w; objects := objects w; clock := clock w; uuids := uuids w;
     uuid_next := uuid_next w; trace := trace w ++ [ev] |}.

Definition with_files (m : gmap string File) (w : World) : World :=
  {| fs := {| files := m; write_fault := write_fault (fs w);
              rename_fault := rename_fault (fs w) |};
     objects := objects w; clock := clock w; uuids := uuids w;
     uuid_next := uuid_next w; trace := trace w |}.

Definition with_objects (b : backend) (w : World) : World :=
  {| fs := fs w; objects := b; clock := clock w; uuids := uuids w;
     uuid_next := uuid_next w; trace := trace w |}.

(** [os.ReadFile] *)
Definition os_ReadFile (w : World) (path : string) : World * (bytes + error) :=
  let w := emit (EvReadFile path) w in
  match files (fs w) !! path with
  | None => (w, inr (PathError "open" path ENOENT))
  | Some (Regular data) => (w, inl data)
  | Some Directory => (w, inr (PathError "read" path EISDIR))
  | Some Unreadable => (w, inr (PathError "open" path EACCES))
  end.

(** [os.WriteFile(path, data, 0644)] *)
Definition os_WriteFile (w : World) (path : string) (data : bytes)
  : World * option error :=
  let w := emit (EvWriteFile path data) w in
  match write_fault (fs w) with
  | Some e => (w, Some (PathError "open" path e))
  | None => (with_files (<[path := Regular data]> (files (fs w))) w, None)
  end.

(** [os.Rename(oldpath, newpath)]: the new path holds either its old
    content or the whole of the renamed file. *)
Definition os_Rename (w : World) (oldpath newpath : string) : World * option error :=
  let w := emit (EvRename oldpath newpath) w in
  match rename_fault (fs w) with
  | Some e => (w, Some (PathError "rename" oldpath e))
  | None =>
      match files (fs w) !! oldpath with
      | None => (w, Some (PathError "rename" oldpath ENOENT))
      | Some f =>
          (with_files (<[newpath := f]> (delete oldpath (files (fs w)))) w, None)
      end
  end.

(** [os.Remove(path)], result dropped by the caller. *)
Definition os_Remove (w : World) (path : string) : World :=
  let w := emit (EvRemove path) w in
  with_files (delete path (files (fs w))) w.

(** [s.storage.Save(ctx, path, bytes.NewReader(data))] *)
Definition Save (w : World) (path : string) (data : bytes) : World * (string + error) :=
  let w := emit (EvStorageSave path data) w in
  let '(b, r) := storage_Save (objects w) path data in
  (with_objects b w, r).

(** [s.storage.Delete(ctx, path)] *)
Definition Delete (w : World) (path : string) : World * option error :=
  let w := emit (EvStorageDelete path) w in
  let '(b, r) := storage_Delete (objects w) path in
  (with_objects b w, r).

(** [time.Now()] *)
Definition time_Now (w : World) : Time := clock w.

(** [uuid.New().String()] *)
Definition uuid_New (w : World) : World * string :=
  ({| fs := fs w; objects := objects w; clock := clock w; uuids := uuids w;
      uuid_next := S (uuid_next w); trace := trace w |},
   uuids w (uuid_next w)).

End world.

(** ** image_processor.go: the processor *)

Record ImageProcessor := { quality : Z }.

Definition NewImageProcessor (quality : Z) : ImageProcessor :=
  if (quality <? 1) || (100 <? quality) then {| quality := 75 |}
  else {| quality := quality |}.

Record ProcessResult := {
  pr_Data : bytes;
  pr_Width : Z;
  pr_Height : Z;
  pr_Format : string;
}.

Section processor.
Context `{Imaging}.

Definition decodeImage (p : ImageProcessor) (data : bytes) (mimeType : string)
  : image * string + error :=
  if String.eqb mimeType "image/jpeg" then
    match jpeg_Decode data with
    | inl img => inl (img, "jpeg")
    | inr err => inr err
    end
  else if String.eqb mimeType "image/png" then
    match png_Decode data with
    | inl img => inl (img, "png")
    | inr err => inr err
    end
  else if String.eqb mimeType "image/webp" then
    match xwebp_Decode data with
    | inl img => inl (img, "webp")
    | inr err => inr err
    end
  else inr (fmt_Errorf_s "unsupported image type: " mimeType).

Definition fixOrientation (p : ImageProcessor) (data : bytes) (img : image) : image :=
  match exif_Decode data with
  | inr _ => img
  | inl x =>
      match exif_Get_Orientation x with
      | inr _ => img
      | inl orientTag =>
          match tag_Int0 orientTag with
          | inr _ => img
          | inl orient =>
              if orient =? 2 then imaging_FlipH img
              else if orient =? 3 then imaging_Rotate180 img
              else if orient =? 4 then imaging_FlipV img
              else if orient =? 5 then imaging_Transpose img
              else if orient =? 6 then imaging_Rotate270 img
              else if orient =? 7 then imaging_Transverse img
              else if orient =? 8 then imaging_Rotate90 img
              else img
          end
      end
  end.

Definition encodeWebP (p : ImageProcessor) (img : image) : bytes + error :=
  webp_Encode img false (quality p).

Definition Process (p : ImageProcessor) (data : bytes) (mimeType : string)
  : ProcessResult + error :=
  match decodeImage p data mimeType with
  | inr err => inr (fmt_Errorf_w "failed to decode image: " err)
  | inl (img, format) =>
      let img := if String.eqb format "jpeg" then fixOrientation p data img else img in
      match encodeWebP p img with
      | inr err => inr (fmt_Errorf_w "failed to encode webp: " err)
      | inl webpData =>
          inl {| pr_Data := webpData;
                 pr_Width := Bounds_Dx img;
                 pr_Height := Bounds_Dy img;
                 pr_Format := "webp" |}
      end
  end.

End processor.

(** ** image_service.go: the metadata store *)

(** [filepath.Join(dir, name)] for a directory path in clean form. *)
Definition filepath_Join (dir name : string) : string :=
  if String.eqb dir "" then name else dir +:+ "/" +:+ name.

(** The order [sort.Slice] establishes with
    [less(i, j) = images[i].CreatedAt.After(images[j].CreatedAt)]: no element
    is followed by a strictly newer one. *)
Definition newest_first (a b : Image) : Prop :=
  unixNano (CreatedAt b) <= unixNano (CreatedAt a).

#[global] Instance newest_first_dec : RelDecision newest_first.
Proof. intros a b. unfold newest_first. apply _. Defined.

#[global] Instance newest_first_total : Total newest_first.
Proof. intros a b. unfold newest_first. lia. Qed.

#[global] Instance newest_first_trans : Transitive newest_first.
Proof. intros a b c. unfold newest_first. lia. Qed.

Module MetadataStore.

Record t := { images : gmap string Image; filePath : string }.

Section ops.
Context `{Storage} `{JSON}.

Definition with_images (m : gmap string Image) (s : t) : t :=
  {| images := m; filePath := filePath s |}.

Definition Lock (w : World) : World := emit EvLock w.
Definition Unlock (w : World) : World := emit EvUnlock w.

Definition loadLocked (s : t) (w : World) : t * World * option error :=
  match os_ReadFile w (filePath s) with
  | (w, inr err) => (s, w, Some err)
  | (w, inl data) =>
      let '(m, e) := json_Unmarshal data (images s) in
      (with_images m s, w, SyntaxError <$> e)
  end.

Definition load (s : t) (w : World) : t * World * option error :=
  let w := Lock w in
  let '(s, w, r) := loadLocked s w in
  (s, Unlock w, r).

Definition NewMetadataStore (w : World) (basePath : string) : World * (t + error) :=
  let filePath := filepath_Join basePath "metadata.json" in
  let store := {| images := ∅; filePath := filePath |} in
  match load store w with
  | (store, w, Some err) =>
      if negb (os_IsNotExist err) then (w, inr err) else (w, inl store)
  | (store, w, None) => (w, inl store)
  end.

Definition saveLocked (s : t) (w : World) : World * option error :=
  match json_MarshalIndent (images s) with
  | inr msg => (w, Some (LibError "json" msg))
  | inl data =>
      let tmpFile := filePath s +:+ ".tmp" in
      match os_WriteFile w tmpFile data with
      | (w, Some err) => (w, Some err)
      | (w, None) =>
          match os_Rename w tmpFile (filePath s) with
          | (w, Some err) => (os_Remove w tmpFile, Some err)
          | (w, None) => (w, None)
          end
      end
  end.

Definition Add (s : t) (w : World) (img : Image) : t * World * option error :=
  let w := Lock w in
  let s := with_images (<[ID img := img]> (images s)) s in
  let '(w, r) := saveLocked s w in
  (s, Unlock w, r).

Definition Delete (s : t) (w : World) (id : string) : t * World * option error :=
  let w := Lock w in
  let s := with_images (delete id (images s)) s in
  let '(w, r) := saveLocked s w in
  (s, Unlock w, r).

(** The copies are sorted newest first; among records of equal creation
    time Go leaves the order open, the merge sort fixes one. *)
Definition List (s : t) (w : World) : World * list Image :=
  let w := Lock w in
  let images := (map_to_list (images s)).*2 in
  (Unlock w, merge_sort newest_first images).

Definition Get (s : t) (w : World) (id : string) : World * option Image :=
  let w := Lock w in
  (Unlock w, images s !! id).

Definition Count (s : t) (w : World) : World * Z :=
  let w := Lock w in
  (Unlock w, Z.of_nat (size (images s))).

Definition Reload (s : t) (w : World) : t * World * option error :=
  let w := Lock w in
  let '(s, w, r) := loadLocked s w in
  (s, Unlock w, r).

End ops.

End MetadataStore.

(** ** image_service.go: the service *)

(** An [io.Reader]: the bytes it yields and the error, if any, that ends the
    read before EOF. *)
Record Reader := { r_data : bytes; r_err : option error }.

(** [io.ReadAll] *)
Definition io_ReadAll (r : Reader) : bytes + error :=
  match r_err r with
  | Some err => inr err
  | None => inl (r_data r)
  end.

Definition isValidStoragePath (path : string) : bool :=
  if String.eqb path "" then false
  else
    let parts := filepath_SplitList path in
    if (length parts =? 0)%nat then false
    else
      let ext := filepath_Ext path in
      String.eqb ext ".webp" || String.eqb ext ".jpg" ||
      String.eqb ext ".jpeg" || String.eqb ext ".png".

Definition mimeTypeToFormat (mimeType : string) : string :=
  if String.eqb mimeType "image/jpeg" then "jpeg"
  else if String.eqb mimeType "image/png" then "png"
  else if String.eqb mimeType "image/webp" then "webp"
  else "unknown".

Record ImageService := {
  processor : ImageProcessor;
  config : config.Config;
  metadata : MetadataStore.t;
}.

Definition with_metadata (m : MetadataStore.t) (s : ImageService) : ImageService :=
  {| processor := processor s; config := config s; metadata := m |}.

Definition toListItem (img : Image) : ImageListItem :=
  {| item_ID := ID img;
     item_URL := URL img;
     item_ThumbnailURL := "";
     item_OriginalFormat := OriginalFormat img;
     item_ProcessedSize := ProcessedSize img;
     item_Width := Width img;
     item_Height := Height img;
     item_CreatedAt := CreatedAt img |}.

(** The storage key [DeleteImage] works with: the persisted path, else the
    URL without its ["/images/"] prefix, else empty. *)
Definition resolveStoragePath (img : Image) : string :=
  let storagePath := StoragePath img in
  if String.eqb storagePath "" then
    if negb (String.eqb (URL img) "") then
      let prefix := "/images/" in
      if (String.length prefix <? String.length (URL img))%nat &&
         has_prefix prefix (URL img)
      then string_drop (String.length prefix) (URL img)
      else storagePath
    else storagePath
  else storagePath.

Section service.
Context `{Storage} `{JSON} `{Imaging}.

Definition Upload (s : ImageService) (w : World) (file : Reader) (originalSize : Z)
  : ImageService * World * (UploadResult + error) :=
  match io_ReadAll file with
  | inr err => (s, w, inr (fmt_Errorf_w "failed to read file: " err))
  | inl data =>
  let mimeType := detectMimeFromHeader data in
  if negb (ValidateMimeType mimeType (config.AllowedTypes (config.Image_ (config s)))) then
    (s, w, inr (fmt_Errorf_s "invalid file type: " mimeType))
  else
  if config.MaxSize (config.Image_ (config s)) <? Z.of_nat (length data) then
    (s, w, inr (errorString
                  ("file too large: " +:+ fmt_d (Z.of_nat (length data)) +:+
                   " bytes (max: " +:+
                   fmt_d (config.MaxSize (config.Image_ (config s))) +:+ ")")))
  else
  match Process (processor s) data mimeType with
  | inr err => (s, w, inr (fmt_Errorf_w "failed to process image: " err))
  | inl result =>
  let now := time_Now w in
  let '(w, id) := uuid_New w in
  let filename := id +:+ ".webp" in
  let storagePath :=
    fmt_d (Year now) +:+ "/" +:+ fmt_02d (Month now) +:+ "/" +:+ filename in
  match Save w storagePath (pr_Data result) with
  | (w, inr err) => (s, w, inr (fmt_Errorf_w "failed to save file: " err))
  | (w, inl url) =>
  let originalFormat := mimeTypeToFormat mimeType in
  let img :=
    {| ID := id;
       URL := url;
       OriginalFormat := originalFormat;
       OriginalSize := originalSize;
       ProcessedSize := Z.of_nat (length (pr_Data result));
       Width := pr_Width result;
       Height := pr_Height result;
       CreatedAt := now;
       Filename := filename;
       StoragePath := storagePath |} in
  match MetadataStore.Add (metadata s) w img with
  | (m, w, Some err) =>
      let '(w, _) := Delete w storagePath in
      (with_metadata m s, w, inr (fmt_Errorf_w "failed to save metadata: " err))
  | (m, w, None) =>
      (with_metadata m s, w,
       inl {| res_ID := ID img;
              res_URL := URL img;
              res_OriginalFormat := OriginalFormat img;
              res_OriginalSize := OriginalSize img;
              res_ProcessedSize := ProcessedSize img;
              res_Width := Width img;
              res_Height := Height img;
              res_CreatedAt := CreatedAt img |})
  end end end end.

Definition GetImage (s : ImageService) (w : World) (id : string)
  : World * (Image + error) :=
  match MetadataStore.Get (metadata s) w id with
  | (w, None) => (w, inr (fmt_Errorf_s "image not found: " id))
  | (w, Some img) => (w, inl img)
  end.

(** [page] and [pageSize] are Go [int]s; the arithmetic wraps as Go's does.
    [None] stands for a run-time panic ([make] with a negative capacity, or
    slice bounds out of range). *)
Definition ListImages (s : ImageService) (w : World) (page pageSize : Z)
  : World * option PaginatedList :=
  let page := if page <? 1 then 1 else page in
  let pageSize := if (pageSize <? 1) || (100 <? pageSize) then 20 else pageSize in
  let '(w, allImages) := MetadataStore.List (metadata s) w in
  let len := Z.of_nat (length allImages) in
  let total := len in
  let start := int_mul (int_sub page 1) pageSize in
  let end_ := int_add start pageSize in
  let start := if len <=? start then len else start in
  let end_ := if len <? end_ then len else end_ in
  if int_sub end_ start <? 0 then (w, None)
  else
    match slice allImages start end_ with
    | None => (w, None)
    | Some window =>
        let items := toListItem <$> window in
        let totalPages := int_div total pageSize in
        let totalPages :=
          if 0 <? int_rem total pageSize then int_add totalPages 1 else totalPages in
        (w, Some {| pl_Items := items;
                    pl_Total := total;
                    pl_Page := page;
                    pl_PageSize := pageSize;
                    pl_TotalPages := totalPages |})
    end.

Definition DeleteImage (s : ImageService) (w : World) (id : string)
  : ImageService * World * option error :=
  match MetadataStore.Get (metadata s) w id with
  | (w, None) => (s, w, Some (fmt_Errorf_s "image not found: " id))
  | (w, Some img) =>
  let storagePath := resolveStoragePath img in
  if String.eqb storagePath "" || String.eqb storagePath "/" ||
     negb (isValidStoragePath storagePath) then
    match MetadataStore.Delete (metadata s) w id with
    | (m, w, Some err) =>
        (with_metadata m s, w, Some (fmt_Errorf_w "failed to delete metadata: " err))
    | (m, w, None) => (with_metadata m s, w, None)
    end
  else
  match Delete w storagePath with
  | (w, Some err) =>
      if negb (os_IsNotExist err) then
        (s, w, Some (fmt_Errorf_w "failed to delete file: " err))
      else
        match MetadataStore.Delete (metadata s) w id with
        | (m, w, Some err) =>
            (with_metadata m s, w, Some (fmt_Errorf_w "failed to delete metadata: " err))
        | (m, w, None) => (with_metadata m s, w, None)
        end
  | (w, None) =>
      match MetadataStore.Delete (metadata s) w id with
      | (m, w, Some err) =>
          (with_metadata m s, w, Some (fmt_Errorf_w "failed to delete metadata: " err))
      | (m, w, None) => (with_metadata m s, w, None)
      end
  end end.

End service.

(** ** image_handler.go: how the caller classifies errors *)

Module handler.

Definition StatusOK : Z := 200.
Definition StatusBadRequest : Z := 400.
Definition StatusNotFound : Z := 404.
Definition StatusInternalServerError : Z := 500.

(** The loop of [containsImpl], with [n] positions left to try. *)
Fixpoint containsImpl_from (n : nat) (s substr : string) : bool :=
  match n with
  | O => false
  | S n' =>
      if has_prefix substr s then true
      else match s with
           | String _ s' => containsImpl_from n' s' substr
           | EmptyString => false
           end
  end.

Definition containsImpl (s substr : string) : bool :=
  let last := Z.of_nat (String.length s) - Z.of_nat (String.length substr) in
  if last <? 0 then false
  else containsImpl_from (S (Z.to_nat last)) s substr.

Definition contains (s substr : string) : bool :=
  (String.length substr <=? String.length s)%nat &&
  (String.eqb s substr || ((0 <? String.length s)%nat && containsImpl s substr)).

(** The status and code [ImageHandler.Upload] answers an error with. *)
Definition Upload_error (err : error) : Z * Z :=
  let errMsg := Error err in
  if contains errMsg "invalid file type" then (StatusBadRequest, CodeInvalidFileType)
  else if contains errMsg "file too large" then (StatusBadRequest, CodeFileTooLarge)
  else if contains errMsg "failed to process" then
    (StatusInternalServerError, CodeProcessingFailed)
  else if contains errMsg "failed to save" then
    (StatusInternalServerError, CodeStorageFailed)
  else (StatusInternalServerError, CodeInternalError).

(** The status and code [ImageHandler.Get] and [ImageHandler.Delete] answer
    an error with. *)
Definition Get_error (err : error) : Z * Z :=
  if contains (Error err) "not found" then (StatusNotFound, CodeNotFound)
  else (StatusInternalServerError, CodeInternalError).

End handler.

(** ** A reference instantiation, to run the service on concrete inputs *)

Module Ref.

(** An in-memory storage backend whose next [Save] or [Delete] can be made
    to fail; deleting an absent key reports ENOENT. *)
Record MemBackend := {
  objs : gmap string bytes;
  save_fault : option error;
  delete_fault : option error;
}.

#[global] Instance memStorage : Storage := {|
  backend := MemBackend;
  storage_Save b path data :=
    match save_fault b with
    | Some err => (b, inr err)
    | None =>
        ({| objs := <[path := data]> (objs b); save_fault := save_fault b;
            delete_fault := delete_fault b |},
         inl ("/images/" +:+ path))
    end;
  storage_Delete b path :=
    match delete_fault b with
    | Some err => (b, Some err)
    | None =>
        match objs b !! path with
        | None => (b, Some (PathError "remove" path ENOENT))
        | Some _ =>
            ({| objs := delete path (objs b); save_fault := save_fault b;
                delete_fault := delete_fault b |}, None)
        end
    end;
|}.

(** The double quote character. *)
Definition dq : string := String (ascii_of_nat 34) EmptyString.

Definition quoted (s : string) : string := dq +:+ s +:+ dq.

Definition render_entry (kv : string * Image) : string :=
  "  " +:+ quoted kv.1 +:+ ": {" +:+
  quoted "id" +:+ ": " +:+ quoted (ID kv.2) +:+ ", " +:+
  quoted "url" +:+ ": " +:+ quoted (URL kv.2) +:+ ", " +:+
  quoted "processed_size" +:+ ": " +:+ fmt_d (ProcessedSize kv.2) +:+ "}".

(** A codec that renders a table as one JSON object and reads back the
    empty object only; any other input is a syntax error. *)
#[global] Instance lineJSON : JSON := {|
  json_MarshalIndent m :=
    inl (bytes_of ("{" +:+ String.concat "," (render_entry <$> map_to_list m) +:+ "}"));
  json_Unmarshal data m :=
    if bool_decide (data = bytes_of "{}") then (m, None)
    else (m, Some "invalid character looking for beginning of value");
|}.

(** Images as pixel rows. *)
Abbreviation grid := (list (list Byte.byte)).

Definition columns (g : grid) : nat :=
  match g with
  | [] => 0
  | r :: _ => length r
  end.

Definition transpose (g : grid) : grid :=
  (λ i, (λ row, nth i row Byte.x00) <$> g) <$> seq 0 (columns g).

Fixpoint chunks (fuel w : nat) (l : bytes) : grid :=
  match fuel, l with
  | O, _ => []
  | _, [] => []
  | S fuel', _ => take w l :: chunks fuel' w (drop w l)
  end.

(** A toy container: four header bytes, a width byte, an orientation byte
    (zero: no EXIF block), then the pixels row by row. *)
Definition decode_grid (data : bytes) : grid + error :=
  match drop 4 data with
  | wb :: _ :: pixels =>
      let w := N.to_nat (Byte.to_N wb) in
      if (w =? 0)%nat then inr (LibError "image" "invalid format: zero width")
      else inl (chunks (length pixels) w pixels)
  | _ => inr (LibError "image" "unexpected EOF")
  end.

#[global] Instance gridImaging : Imaging := {|
  image := grid;
  Bounds_Dx g := Z.of_nat (columns g);
  Bounds_Dy g := Z.of_nat (length g);
  jpeg_Decode := decode_grid;
  png_Decode := decode_grid;
  xwebp_Decode := decode_grid;
  webp_Encode g lossless q :=
    if (length g =? 0)%nat then inr (LibError "webp" "encode: empty image")
    else inl (bytes_of "RIFF" ++ concat g);
  Exif := Z;
  Tag := Z;
  exif_Decode data :=
    match data !! 5%nat with
    | Some b =>
        if bool_decide (b = Byte.x00) then inr (LibError "exif" "no exif data")
        else inl (Z.of_N (Byte.to_N b))
    | None => inr (LibError "exif" "EOF")
    end;
  exif_Get_Orientation x := inl x;
  tag_Int0 t := inl t;
  imaging_FlipH g := reverse <$> g;
  imaging_Rotate180 g := reverse (reverse <$> g);
  imaging_FlipV g := reverse g;
  imaging_Transpose g := transpose g;
  imaging_Rotate270 g := reverse <$> transpose g;
  imaging_Transverse g := reverse (reverse <$> transpose g);
  imaging_Rotate90 g := reverse (transpose g);
|}.

Definition fs0 : FileSystem :=
  {| files := ∅; write_fault := None; rename_fault := None |}.

Definition backend0 : MemBackend :=
  {| objs := ∅; save_fault := None; delete_fault := None |}.

Definition t0 : Time := {| unixNano := 1733000000000000000; Year := 2024; Month := 12 |}.

Definition world0 : World :=
  {| fs := fs0; objects := backend0; clock := t0;
     uuids n := "id-" +:+ pretty n; uuid_next := 0; trace := [] |}.

Definition with_fs (f : FileSystem) (w : World) : World :=
  {| fs := f; objects := objects w; clock := clock w; uuids := uuids w;
     uuid_next := uuid_next w; trace := trace w |}.

Definition faulty_write (e : Errno) (w : World) : World :=
  with_fs {| files := files (fs w); write_fault := Some e;
             rename_fault := rename_fault (fs w) |} w.

Definition faulty_rename (e : Errno) (w : World) : World :=
  with_fs {| files := files (fs w); write_fault := write_fault (fs w);
             rename_fault := Some e |} w.

Definition store0 : MetadataStore.t :=
  {| MetadataStore.images := ∅; MetadataStore.filePath := "data/metadata.json" |}.

Definition svc0 : ImageService :=
  {| processor := NewImageProcessor 75; config := config.DefaultConfig;
     metadata := store0 |}.

(** A 2x2 JPEG-tagged input without EXIF, and the same with orientation 6. *)
Definition jpeg_plain : bytes :=
  [Byte.xff; Byte.xd8; Byte.xff; Byte.xe0; Byte.x02; Byte.x00;
   Byte.x01; Byte.x02; Byte.x03; Byte.x04].

Definition jpeg_orient (o : Byte.byte) : bytes :=
  [Byte.xff; Byte.xd8; Byte.xff; Byte.xe1; Byte.x03; o;
   Byte.x01; Byte.x02; Byte.x03; Byte.x04; Byte.x05; Byte.x06].

Definition png_input : bytes :=
  [Byte.x89; Byte.x50; Byte.x4e; Byte.x47; Byte.x0d; Byte.x0a; Byte.x1a; Byte.x0a;
   Byte.x01; Byte.x02; Byte.x03; Byte.x04].

Definition reader (data : bytes) : Reader := {| r_data := data; r_err := None |}.

(** A record as [Upload] would have made it at instant [n]. *)
Definition rec (n : Z) : Image :=
  {| ID := "img-" +:+ pretty n;
     URL := "/images/2024/12/img-" +:+ pretty n +:+ ".webp";
     OriginalFormat := "jpeg";
     OriginalSize := 100;
     ProcessedSize := 50;
     Width := 2;
     Height := 2;
     CreatedAt := {| unixNano := n; Year := 2024; Month := 12 |};
     Filename := "img-" +:+ pretty n +:+ ".webp";
     StoragePath := "2024/12/img-" +:+ pretty n +:+ ".webp" |}.

Definition table (n : nat) : gmap string Image :=
  list_to_map ((λ i, let r := rec (Z.of_nat i) in (ID r, r)) <$> seq 0 n).

Definition svc_with (m : gmap string Image) : ImageService :=
  {| processor := NewImageProcessor 75; config := config.DefaultConfig;
     metadata := {| MetadataStore.images := m;
                    MetadataStore.filePath := "data/metadata.json" |} |}.

(** The default configuration with an upload limit of eight bytes. *)
Definition svc_small : ImageService :=
  {| processor := NewImageProcessor 75;
     config := {| config.Image_ :=
                    {| config.Quality := 75; config.MaxSize := 8;
                       config.AllowedTypes := ["image/jpeg"; "image/png"; "image/webp"] |} |};
     metadata := store0 |}.

Definition with_backend (b : MemBackend) (w : World) : World :=
  {| fs := fs w; objects := b; clock := clock w; uuids := uuids w;
     uuid_next := uuid_next w; trace := trace w |}.

(** A world whose metadata directory is read-only and whose backend
    refuses to delete. *)
Definition world_stuck : World :=
  with_backend {| objs := ∅; save_fault := None;
                  delete_fault := Some (LibError "storage" "backend unavailable") |}
               (faulty_write EROFS world0).

(** A record whose key cannot be resolved: no stored path, and a URL
    outside ["/images/"]. *)
Definition rec_foreign : Image :=
  {| ID := "legacy";
     URL := "https://cdn.example/legacy";
     OriginalFormat := "png";
     OriginalSize := 10;
     ProcessedSize := 5;
     Width := 1;
     Height := 1;
     CreatedAt := t0;
     Filename := "legacy.webp";
     StoragePath := "" |}.

End Ref.

(** ** Vocabulary of the results *)

(** The failure kinds of the design, and the step that could not read the
    upload. *)
Inductive FailureKind :=
| ReadFailed
| InvalidFileType
| FileTooLarge
| ProcessingFailed
| StorageFailed
| MetadataFailed
| NotFound.

(** The literal each [fmt.Errorf] of the core starts its message with, and
    the failure it reports. *)
Definition message_prefixes : list (string * FailureKind) :=
  [ ("failed to read file: ", ReadFailed);
    ("invalid file type: ", InvalidFileType);
    ("file too large: ", FileTooLarge);
    ("failed to process image: ", ProcessingFailed);
    ("failed to decode image: ", ProcessingFailed);
    ("failed to encode webp: ", ProcessingFailed);
    ("failed to save file: ", StorageFailed);
    ("failed to delete file: ", StorageFailed);
    ("failed to save metadata: ", MetadataFailed);
    ("failed to delete metadata: ", MetadataFailed);
    ("image not found: ", NotFound) ].

(** Classification by reading the message. *)
Definition kind_of_message (msg : string) : option FailureKind :=
  snd <$> find (λ pk, has_prefix pk.1 msg) message_prefixes.

(** The error was built by [fmt.Errorf]: it carries a message and, with
    [%w], the cause, and nothing else. *)
Definition is_fmt_error (e : error) : bool :=
  match e with
  | errorString _ | wrapError _ _ => true
  | _ => false
  end.

(** A classifier that does not read messages: it gives equal answers on
    errors that differ in their messages only. *)
Definition message_blind {A} (classify : error → A) : Prop :=
  ∀ e1 e2, shape e1 = shape e2 → classify e1 = classify e2.

(** The extension [isValidStoragePath] accepts. *)
Definition recognized_ext (key : string) : bool :=
  let ext := filepath_Ext key in
  String.eqb ext ".webp" || String.eqb ext ".jpg" ||
  String.eqb ext ".jpeg" || String.eqb ext ".png".

Definition is_log (ev : Event) : bool :=
  match ev with
  | EvLog _ => true
  | _ => false
  end.

Definition is_storage_delete (ev : Event) : bool :=
  match ev with
  | EvStorageDelete _ => true
  | _ => false
  end.

Section vocabulary.
Context `{Storage} `{JSON}.

(** The live metadata file holds the serialisation of the table in
    memory. *)
Definition on_disk (s : MetadataStore.t) (w : World) : Prop :=
  ∃ data, json_MarshalIndent (MetadataStore.images s) = inl data ∧
          files (fs w) !! MetadataStore.filePath s = Some (Regular data).

(** The storage key [Upload] computes in world [w]. *)
Definition upload_key (w : World) : string :=
  fmt_d (Year (time_Now w)) +:+ "/" +:+ fmt_02d (Month (time_Now w)) +:+ "/" +:+
  (uuids w (uuid_next w) +:+ ".webp").

(** The record [Upload] builds in world [w] for input [data] once the
    processor returned [result] and the backend [url]. *)
Definition upload_record (w : World) (data : bytes) (originalSize : Z)
    (result : ProcessResult) (url : string) : Image :=
  {| ID := uuids w (uuid_next w);
     URL := url;
     OriginalFormat := mimeTypeToFormat (detectMimeFromHeader data);
     OriginalSize := originalSize;
     ProcessedSize := Z.of_nat (length (pr_Data result));
     Width := pr_Width result;
     Height := pr_Height result;
     CreatedAt := time_Now w;
     Filename := uuids w (uuid_next w) +:+ ".webp";
     StoragePath := upload_key w |}.

(** The two mutations of the metadata store. *)
Inductive Mutation :=
| MAdd (img : Image)
| MDelete (id : string).

Definition mutate (op : Mutation) (s : MetadataStore.t) (w : World)
  : MetadataStore.t * World * option error :=
  match op with
  | MAdd img => MetadataStore.Add s w img
  | MDelete id => MetadataStore.Delete s w id
  end.

Definition mutated (op : Mutation) (m : gmap string Image) : gmap string Image :=
  match op with
  | MAdd img => <[ID img := img]> m
  | MDelete id => delete id m
  end.

Definition is_file_event (ev : Event) : bool :=
  match ev with
  | EvReadFile _ | EvWriteFile _ _ | EvRename _ _ | EvRemove _ => true
  | _ => false
  end.

End vocabulary.

Section orientation.
Context `{Imaging}.

(** The orientation table as the design documents it: values 1 to 8 are
    identity, horizontal flip, rotation by 180, vertical flip, transpose,
    rotation by 270, transverse, rotation by 90. *)
Definition documented_transform (orient : Z) : image → image :=
  match orient with
  | 1 => λ img, img
  | 2 => imaging_FlipH
  | 3 => imaging_Rotate180
  | 4 => imaging_FlipV
  | 5 => imaging_Transpose
  | 6 => imaging_Rotate270
  | 7 => imaging_Transverse
  | 8 => imaging_Rotate90
  | _ => λ img, img
  end.

(** What [Process] returns once it holds the image to encode. *)
Definition encoded (p : ImageProcessor) (img : image) : ProcessResult + error :=
  match encodeWebP p img with
  | inr err => inr (fmt_Errorf_w "failed to encode webp: " err)
  | inl webpData =>
      inl {| pr_Data := webpData;
             pr_Width := Bounds_Dx img;
             pr_Height := Bounds_Dy img;
             pr_Format := "webp" |}
  end.

End orientation.

(** ** response.go: the response envelope *)

Module response.

Definition CodeUnauthorized : Z := 401.
Definition CodeForbidden : Z := 403.

(** [model.Response]; [Data] is [nil] in every error response. *)
Record Response (A : Type) := {
  Code : Z;
  Message : string;
  Data : option A;
}.

Arguments Code {A} _.
Arguments Message {A} _.
Arguments Data {A} _.

Definition NewSuccessResponse {A} (data : A) : Response A :=
  {| Code := CodeSuccess; Message := "ok"; Data := Some data |}.

Definition NewErrorResponse {A} (code : Z) (message : string) : Response A :=
  {| Code := code; Message := message; Data := None |}.

End response.

Import response.

(** ** image_processor.go: DetectMimeType *)

(** What one [reader.Read(header)] call gives back: the bytes delivered, and
    [nil], [io.EOF] or another error. *)
Inductive ReadErr :=
| EOF
| ReadFailure (err : error).

Record ReadCall := { delivered : bytes; read_err : option ReadErr }.

(** [n, err := reader.Read(header)] into a buffer of [size] bytes. *)
Definition Read (r : ReadCall) (size : nat) : bytes * option ReadErr :=
  (take size (delivered r), read_err r).

Definition DetectMimeType (reader : ReadCall) : string * bytes + error :=
  match Read reader 512 with
  | (_, Some (ReadFailure err)) => inr err
  | (header, _) =>
      let mimeType := detectMimeFromHeader header in
      inl (mimeType, header)
  end.

(** ** middleware: bearer-token authentication *)

Module middleware.

Record AuthConfig := { Enabled : bool; Tokens : list string }.

(** What the middleware does with the request: hand it on, or answer it. *)
Inductive Outcome :=
| Next
| Abort (status : Z) (body : Response unit).

(** [strings.SplitN(s, " ", 2)]: cut at the first space, if there is one. *)
Fixpoint cut_at_space (s : string) : option (string * string) :=
  match s with
  | EmptyString => None
  | String c rest =>
      if Ascii.eqb c " "%char then Some (EmptyString, rest)
      else match cut_at_space rest with
           | Some (a, b) => Some (String c a, b)
           | None => None
           end
  end.

Definition strings_SplitN2 (s : string) : list string :=
  match cut_at_space s with
  | Some (a, b) => [a; b]
  | None => [s]
  end.

(** [strings.ToLower] on the bytes of the string: the letters A to Z are
    lowered, every other byte is kept.  (Go lowers by rune; no rune outside
    ASCII lowers to a letter of "bearer", so the comparison below does not
    see the difference.) *)
Definition lower (c : ascii) : ascii :=
  let n := nat_of_ascii c in
  if (65 <=? n)%nat && (n <=? 90)%nat then ascii_of_nat (n + 32) else c.

Fixpoint strings_ToLower (s : string) : string :=
  match s with
  | EmptyString => EmptyString
  | String c rest => String (lower c) (strings_ToLower rest)
  end.

Fixpoint validateToken (token : string) (allowedTokens : list string) : bool :=
  match allowedTokens with
  | [] => false
  | t :: rest => if String.eqb t token then true else validateToken token rest
  end.

Definition StatusUnauthorized : Z := 401.

(** [authHeader] is [c.GetHeader("Authorization")], empty when the header is
    absent. *)
Definition AuthMiddleware (cfg : AuthConfig) (authHeader : string) : Outcome :=
  if negb (Enabled cfg) then Next
  else if String.eqb authHeader "" then
    Abort StatusUnauthorized (NewErrorResponse CodeUnauthorized "missing authorization header")
  else
    let parts := strings_SplitN2 authHeader in
    match parts with
    | [scheme; token] =>
        if negb (String.eqb (strings_ToLower scheme) "bearer") then
          Abort StatusUnauthorized (NewErrorResponse CodeUnauthorized
                       "invalid authorization format, expected: Bearer <token>")
        else if negb (validateToken token (Tokens cfg)) then
          Abort StatusUnauthorized (NewErrorResponse CodeUnauthorized "invalid token")
        else Next
    | _ =>
        Abort StatusUnauthorized (NewErrorResponse CodeUnauthorized
                     "invalid authorization format, expected: Bearer <token>")
    end.

(** The value [OptionalAuthMiddleware] stores under "authenticated" before
    it hands the request on; [None] when authentication is switched off and
    nothing is stored. *)
Definition OptionalAuthMiddleware (cfg : AuthConfig) (authHeader : string) : option bool :=
  if negb (Enabled cfg) then None
  else if String.eqb authHeader "" then Some false
  else
    match strings_SplitN2 authHeader with
    | [scheme; token] =>
        if negb (String.eqb (strings_ToLower scheme) "bearer") then Some false
        else if validateToken token (Tokens cfg) then Some true
        else Some false
    | _ => Some false
    end.

End middleware.

(** ** image_handler.go: the endpoints *)

Module ImageHandler.

Section endpoints.
Context `{Storage} `{JSON} `{Imaging}.

(** [c.Request.FormFile("file")]: the uploaded part with the size its header
    declares, or the error of the multipart reader. *)
Definition FormFile : Type := (Reader * Z) + error.

(** POST /api/v1/upload *)
Definition Upload (s : ImageService) (w : World) (form : FormFile)
  : ImageService * World * (Z * Response UploadResult) :=
  match form with
  | inr err =>
      (s, w, (handler.StatusBadRequest,
              NewErrorResponse CodeBadRequest
                ("failed to get uploaded file: " +:+ Error err)))
  | inl (file, size) =>
      match Upload s w file size with
      | (s, w, inr err) =>
          let '(status, code) := handler.Upload_error err in
          (s, w, (status, NewErrorResponse code (Error err)))
      | (s, w, inl result) => (s, w, (handler.StatusOK, NewSuccessResponse result))
      end
  end.

(** GET /api/v1/images, with the two query parameters as parsed; [None] is
    a panic of the service, which the recovery middleware answers. *)
Definition List (s : ImageService) (w : World) (page pageSize : Z)
  : World * option (Z * Response PaginatedList) :=
  match ListImages s w page pageSize with
  | (w, Some result) => (w, Some (handler.StatusOK, NewSuccessResponse result))
  | (w, None) => (w, None)
  end.

(** GET /api/v1/image/:id *)
Definition Get (s : ImageService) (w : World) (id : string)
  : World * (Z * Response Image) :=
  if String.eqb id "" then
    (w, (handler.StatusBadRequest,
         NewErrorResponse CodeBadRequest "image id is required"))
  else
    match GetImage s w id with
    | (w, inr err) =>
        let '(status, code) := handler.Get_error err in
        (w, (status, NewErrorResponse code (Error err)))
    | (w, inl img) => (w, (handler.StatusOK, NewSuccessResponse img))
    end.

(** DELETE /api/v1/image/:id *)
Definition Delete (s : ImageService) (w : World) (id : string)
  : ImageService * World * (Z * Response unit) :=
  if String.eqb id "" then
    (s, w, (handler.StatusBadRequest,
            NewErrorResponse CodeBadRequest "image id is required"))
  else
    match DeleteImage s w id with
    | (s, w, Some err) =>
        let '(status, code) := handler.Get_error err in
        (s, w, (status, NewErrorResponse code (Error err)))
    | (s, w, None) =>
        (* NewSuccessResponse(nil) *)
        (s, w, (handler.StatusOK,
                {| Code := CodeSuccess; Message := "ok"; Data := None |}))
    end.

End endpoints.

End ImageHandler.

(** ** More vocabulary *)

(** [sub] occurs in [s] at some position. *)
Fixpoint occurs (sub s : string) : bool :=
  has_prefix sub s ||
  match s with
  | String _ rest => occurs sub rest
  | EmptyString => false
  end.

Fixpoint has_char (c : ascii) (s : string) : bool :=
  match s with
  | EmptyString => false
  | String d rest => Ascii.eqb c d || has_char c rest
  end.

(** The magic numbers the sniffer looks for. *)
Definition jpeg_magic : bytes := [Byte.xff; Byte.xd8; Byte.xff].
Definition png_magic : bytes :=
  [Byte.x89; Byte.x50; Byte.x4e; Byte.x47; Byte.x0d; Byte.x0a; Byte.x1a; Byte.x0a].
Definition riff_magic : bytes := [Byte.x52; Byte.x49; Byte.x46; Byte.x46].
Definition webp_magic : bytes := [Byte.x57; Byte.x45; Byte.x42; Byte.x50].

Section sequences.
Context `{Storage} `{JSON}.

(** A sequence of mutations, one after the other, with the answer of
    each. *)
Fixpoint run_mutations (ops : list Mutation) (s : MetadataStore.t) (w : World)
  : MetadataStore.t * World * list (option error) :=
  match ops with
  | [] => (s, w, [])
  | op :: rest =>
      let '(s1, w1, r) := mutate op s w in
      let '(s2, w2, rs) := run_mutations rest s1 w1 in
      (s2, w2, r :: rs)
  end.

(** Every identifier in the table was handed out by the identifier source
    of [w]. *)
Definition ids_issued (s : MetadataStore.t) (w : World) : Prop :=
  ∀ id, is_Some (MetadataStore.images s !! id) →
        ∃ n, (n < uuid_next w)%nat ∧ uuids w n = id.

End sequences.

Module Demo.

Definition auth_on : middleware.AuthConfig :=
  {| middleware.Enabled := true; middleware.Tokens := ["s3cret"; "other"] |}.

(** A codec whose serialisation never fails is [Ref.lineJSON]; a world
    without faults is [Ref.world0]. *)
Definition three_ops : list Mutation :=
  [MAdd (Ref.rec 0); MAdd (Ref.rec 1); MDelete "img-0"].

End Demo.

(** The requests that carry a valid bearer token: the header is a scheme
    without a space, one space, and a token; the scheme reads "bearer" in
    any mix of cases; the token, which is everything after the first space,
    is one of the configured tokens. *)
Definition bearer_of (cfg : middleware.AuthConfig) (authHeader : string) : Prop :=
  ∃ scheme token,
    authHeader = scheme +:+ " " +:+ token ∧
    has_char " " scheme = false ∧
    middleware.strings_ToLower scheme = "bearer" ∧
    token ∈ middleware.Tokens cfg.

(** * Results *)

Section results.
Context `{Storage} `{JSON} `{Imaging}.

(** ** Content sniffing and the validation order of Upload *)

(** Membership in a list given by its elements. *)
Ltac in_list := repeat first [apply list_elem_of_here | apply list_elem_of_further].

Lemma detect_short (header : bytes) :
  (length header < 4)%nat →
  detectMimeFromHeader header = "application/octet-stream".
Proof.
  intros Hlen. unfold detectMimeFromHeader.
  destruct (Nat.ltb_spec (length header) 4) as [_|Hge]; [reflexivity | lia].
Qed.

Lemma detect_range (header : bytes) :
  detectMimeFromHeader header ∈
    ["application/octet-stream"; "image/jpeg"; "image/png"; "image/webp"].
Proof.
  unfold detectMimeFromHeader.
  repeat match goal with
         | |- context [if ?b then _ else _] => destruct b
         end; in_list.
Qed.

Lemma ValidateMimeType_elem (mimeType : string) (allowed : list string) :
  ValidateMimeType mimeType allowed = true ↔ mimeType ∈ allowed.
Proof.
  induction allowed as [|t rest IH]; simpl.
  - split; [discriminate | intros Hin; inversion Hin].
  - destruct (String.eqb_spec t mimeType) as [->|Hne].
    + split; [intros _; left | reflexivity].
    + rewrite IH. split; [intros Hin; by right|].
      intros Hin. inversion Hin; subst; [congruence | assumption].
Qed.

Lemma octet_stream_not_image (allowed : list string) :
  Forall (λ t, has_prefix "image/" t = true) allowed →
  ValidateMimeType "application/octet-stream" allowed = false.
Proof.
  intros Hall. destruct (ValidateMimeType _ allowed) eqn:Hv; [|reflexivity].
  apply ValidateMimeType_elem in Hv.
  rewrite Forall_forall in Hall. apply Hall in Hv. discriminate Hv.
Qed.

(** C3.  Upload checks the sniffed type against the allow-list before it
    checks the size.  An input whose sniffed type is not allowed, whatever
    its length, is answered with the invalid-file-type error; an allowed
    input longer than the configured maximum with the file-too-large
    error.  Both leave the service and the world exactly as they were:
    nothing is written to storage or to the metadata, no call leaves the
    service. *)
Theorem C3_type_check_before_size_check
    (s : ImageService) (w : World) (file : Reader) (originalSize : Z) (data : bytes) :
  io_ReadAll file = inl data →
  let mimeType := detectMimeFromHeader data in
  let cfg := config.Image_ (config s) in
  (ValidateMimeType mimeType (config.AllowedTypes cfg) = false →
     Upload s w file originalSize
     = (s, w, inr (errorString ("invalid file type: " +:+ mimeType))) ∧
     kind_of_message ("invalid file type: " +:+ mimeType) = Some InvalidFileType)
  ∧
  (ValidateMimeType mimeType (config.AllowedTypes cfg) = true →
   config.MaxSize cfg < Z.of_nat (length data) →
     ∃ msg,
       Upload s w file originalSize = (s, w, inr (errorString msg)) ∧
       msg = "file too large: " +:+ fmt_d (Z.of_nat (length data)) +:+
             " bytes (max: " +:+ fmt_d (config.MaxSize cfg) +:+ ")" ∧
       kind_of_message msg = Some FileTooLarge).
Proof.
  intros Hread mimeType cfg. split.
  - intros Hbad. unfold Upload. rewrite Hread. fold mimeType. fold cfg.
    rewrite Hbad. simpl. split; reflexivity.
  - intros Hok Hbig. eexists. split; [|split; [reflexivity|reflexivity]].
    unfold Upload. rewrite Hread. fold mimeType. fold cfg. rewrite Hok. simpl.
    destruct (Z.ltb_spec (config.MaxSize cfg) (Z.of_nat (length data))) as [_|Hle];
      [reflexivity | lia].
Qed.

(** C9.  On fewer than four bytes (the empty input included) the sniffer
    answers application/octet-stream; with an allow-list of image types
    only, Upload then returns the invalid-file-type error with the service
    and the world untouched, whatever the decoders are: none is
    consulted. *)
Theorem C9_short_input_is_rejected
    (s : ImageService) (w : World) (file : Reader) (originalSize : Z) (data : bytes) :
  io_ReadAll file = inl data →
  (length data < 4)%nat →
  Forall (λ t, has_prefix "image/" t = true)
         (config.AllowedTypes (config.Image_ (config s))) →
  detectMimeFromHeader data = "application/octet-stream" ∧
  Upload s w file originalSize
  = (s, w, inr (errorString "invalid file type: application/octet-stream")).
Proof.
  intros Hread Hlen Hall.
  pose proof (detect_short data Hlen) as Hmime. split; [exact Hmime|].
  unfold Upload. rewrite Hread, Hmime.
  rewrite (octet_stream_not_image _ Hall). reflexivity.
Qed.


(** ** The metadata store *)

Lemma app_empty_r (s : string) : s +:+ "" = s.
Proof.
  induction s as [|c s IH]; [reflexivity|].
  change (String c (s +:+ "") = String c s). by rewrite IH.
Qed.

Lemma tmp_ne (path : string) : path +:+ ".tmp" ≠ path.
Proof.
  intros Heq. rewrite <- (app_empty_r path) in Heq at 2.
  apply (inj (String.app path)) in Heq. discriminate Heq.
Qed.

(** What [saveLocked] does, by outcome: on success the live file holds
    the serialised table and exactly one write of the temporary file and
    one rename happened; on failure the live file is as it was. *)
Lemma saveLocked_spec (s : MetadataStore.t) (w : World) :
  let '(w', r) := MetadataStore.saveLocked s w in
  objects w' = objects w ∧
  match r with
  | None =>
      ∃ data,
        json_MarshalIndent (MetadataStore.images s) = inl data ∧
        files (fs w') !! MetadataStore.filePath s = Some (Regular data) ∧
        trace w' = trace w ++
          [EvWriteFile (MetadataStore.filePath s +:+ ".tmp") data;
           EvRename (MetadataStore.filePath s +:+ ".tmp") (MetadataStore.filePath s)]
  | Some _ =>
      files (fs w') !! MetadataStore.filePath s
      = files (fs w) !! MetadataStore.filePath s ∧
      ∃ evs, trace w' = trace w ++ evs ∧ forallb is_file_event evs = true
  end.
Proof.
  unfold MetadataStore.saveLocked.
  destruct (json_MarshalIndent (MetadataStore.images s)) as [data|msg].
  2:{ split; [reflexivity|]. split; [reflexivity|].
      exists []. by rewrite app_nil_r. }
  unfold os_WriteFile. cbn [emit fs write_fault].
  destruct (write_fault (fs w)) as [e|].
  { split; [reflexivity|]. split; [reflexivity|]. by eexists [_]. }
  unfold os_Rename. cbn [emit with_files fs rename_fault files trace objects].
  destruct (rename_fault (fs w)) as [e|].
  { cbn. split; [reflexivity|]. split.
    - rewrite lookup_delete_ne by apply tmp_ne.
      by rewrite lookup_insert_ne by apply tmp_ne.
    - eexists [_; _; _]. split; [by rewrite <- !app_assoc | reflexivity]. }
  rewrite lookup_insert_eq. cbn. split; [reflexivity|].
  exists data. split; [reflexivity|]. split.
  - by rewrite lookup_insert_eq.
  - by rewrite <- !app_assoc.
Qed.


Lemma mutate_spec (op : Mutation) (s : MetadataStore.t) (w : World) :
  let s1 := MetadataStore.with_images (mutated op (MetadataStore.images s)) s in
  mutate op s w
  = (s1, MetadataStore.Unlock (MetadataStore.saveLocked s1 (MetadataStore.Lock w)).1,
     (MetadataStore.saveLocked s1 (MetadataStore.Lock w)).2).
Proof.
  destruct op; cbn [mutate mutated];
    unfold MetadataStore.Add, MetadataStore.Delete;
    by destruct (MetadataStore.saveLocked _ _).
Qed.

(** C2 (amended).  A mutation (Add or Delete) changes the table in memory
    and then, still between its Lock and its Unlock, runs the rewrite of
    the whole table.  When the mutation reports success the live file
    holds the serialisation of the table now in memory, written as one
    temporary file and one rename.  When it reports an error the live file
    is what it was before, while the table in memory keeps the change. *)
Theorem C2_mutation_and_disk (op : Mutation) (s : MetadataStore.t) (w : World) :
  let '(s', w', r) := mutate op s w in
  let path := MetadataStore.filePath s in
  MetadataStore.images s' = mutated op (MetadataStore.images s) ∧
  MetadataStore.filePath s' = path ∧
  (∃ evs, trace w' = trace w ++ [EvLock] ++ evs ++ [EvUnlock] ∧
          forallb is_file_event evs = true) ∧
  match r with
  | None =>
      on_disk s' w' ∧
      ∃ data, json_MarshalIndent (MetadataStore.images s') = inl data ∧
              trace w' = trace w ++
                [EvLock; EvWriteFile (path +:+ ".tmp") data;
                 EvRename (path +:+ ".tmp") path; EvUnlock]
  | Some _ => files (fs w') !! path = files (fs w) !! path
  end.
Proof.
  rewrite mutate_spec. cbv zeta.
  set (s1 := MetadataStore.with_images _ s).
  pose proof (saveLocked_spec s1 (MetadataStore.Lock w)) as Hsave.
  destruct (MetadataStore.saveLocked s1 (MetadataStore.Lock w)) as [w1 r].
  destruct Hsave as [_ Hsave]. cbn [fst snd].
  split; [reflexivity|]. split; [reflexivity|].
  destruct r as [e|].
  - destruct Hsave as [Hlive [evs [Htr Hevs]]]. split.
    + exists evs. split; [|exact Hevs].
      cbn [MetadataStore.Unlock emit trace]. rewrite Htr. cbn.
      by rewrite <- !app_assoc.
    + exact Hlive.
  - destruct Hsave as [data [Hm [Hlive Htr]]]. split; [|split].
    + eexists [_; _]. split.
      * cbn [MetadataStore.Unlock emit trace]. rewrite Htr. cbn.
        by rewrite <- !app_assoc.
      * reflexivity.
    + exists data. split; [exact Hm | exact Hlive].
    + exists data. split; [exact Hm|].
      cbn [MetadataStore.Unlock emit trace]. rewrite Htr. cbn.
      by rewrite <- !app_assoc.
Qed.

(** C10 (amended).  Add checks nothing about the identifier: the record is
    stored under its identifier whatever was there, the count stays when
    the identifier was present and grows by one when it was not, and the
    answer of Add is the answer of the file rewrite alone (success exactly
    when the rewrite succeeds). *)
Theorem C10_add_overwrites (s : MetadataStore.t) (w : World) (img : Image) (w0 : World) :
  let '(s', w', r) := MetadataStore.Add s w img in
  MetadataStore.images s' = <[ID img := img]> (MetadataStore.images s) ∧
  r = (MetadataStore.saveLocked s' (MetadataStore.Lock w)).2 ∧
  (is_Some (MetadataStore.images s !! ID img) →
     (MetadataStore.Count s' w0).2 = (MetadataStore.Count s w0).2) ∧
  (MetadataStore.images s !! ID img = None →
     (MetadataStore.Count s' w0).2 = (MetadataStore.Count s w0).2 + 1).
Proof.
  pose proof (mutate_spec (MAdd img) s w) as Hm. cbn [mutate mutated] in Hm.
  cbv zeta in Hm. rewrite Hm. clear Hm.
  split; [reflexivity|]. split; [reflexivity|].
  cbn [MetadataStore.Count MetadataStore.with_images MetadataStore.images snd].
  split.
  - intros Hsome. by rewrite map_size_insert_Some.
  - intros Hnone. rewrite map_size_insert_None by exact Hnone. lia.
Qed.

(** C6.  At construction the store reads metadata.json once.  A missing
    file gives a store with the empty table; a file that is there but
    cannot be read, or whose content the JSON decoder rejects, makes the
    construction fail with that error, and no store (so no partly loaded
    table) is returned.  A file the decoder accepts gives the decoded
    table. *)
Theorem C6_startup_load (w : World) (basePath : string) :
  let path := filepath_Join basePath "metadata.json" in
  let present := files (fs w) !! path in
  (present = None →
     ∃ w', MetadataStore.NewMetadataStore w basePath
           = (w', inl {| MetadataStore.images := ∅; MetadataStore.filePath := path |}))
  ∧ (∀ f, present = Some f → (∀ data, f ≠ Regular data) →
     ∃ w' err, MetadataStore.NewMetadataStore w basePath = (w', inr err))
  ∧ (∀ data m msg, present = Some (Regular data) →
     json_Unmarshal data ∅ = (m, Some msg) →
     ∃ w', MetadataStore.NewMetadataStore w basePath = (w', inr (SyntaxError msg)))
  ∧ (∀ data m, present = Some (Regular data) →
     json_Unmarshal data ∅ = (m, None) →
     ∃ w', MetadataStore.NewMetadataStore w basePath
           = (w', inl {| MetadataStore.images := m; MetadataStore.filePath := path |})).
Proof.
  intros path present.
  unfold MetadataStore.NewMetadataStore, MetadataStore.load, MetadataStore.loadLocked,
    os_ReadFile.
  fold path. cbn [MetadataStore.filePath MetadataStore.images MetadataStore.Lock emit fs].
  fold present.
  repeat split.
  - intros ->. cbn. eauto.
  - intros f -> Hf. destruct f as [data| |]; [by destruct (Hf data)| |]; cbn; eauto.
  - intros data m msg -> Hu. rewrite Hu. cbn. eauto.
  - intros data m -> Hu. rewrite Hu. cbn. eauto.
Qed.


(** ** The processor *)

Lemma fixOrientation_table (p : ImageProcessor) (data : bytes) (img : image)
    (x : Exif) (t : Tag) (orient : Z) :
  exif_Decode data = inl x →
  exif_Get_Orientation x = inl t →
  tag_Int0 t = inl orient →
  fixOrientation p data img = documented_transform orient img.
Proof.
  intros Hx Ht Ho. unfold fixOrientation. rewrite Hx, Ht, Ho.
  destruct (Z.eqb_spec orient 2) as [->|?]; [reflexivity|].
  destruct (Z.eqb_spec orient 3) as [->|?]; [reflexivity|].
  destruct (Z.eqb_spec orient 4) as [->|?]; [reflexivity|].
  destruct (Z.eqb_spec orient 5) as [->|?]; [reflexivity|].
  destruct (Z.eqb_spec orient 6) as [->|?]; [reflexivity|].
  destruct (Z.eqb_spec orient 7) as [->|?]; [reflexivity|].
  destruct (Z.eqb_spec orient 8) as [->|?]; [reflexivity|].
  unfold documented_transform.
  destruct orient as [|q|q]; try reflexivity.
  do 4 (destruct q as [q|q|]; try reflexivity; try lia).
Qed.

(** C8.  Process corrects the orientation of JPEG input only.  For a JPEG
    whose EXIF orientation tag reads a value from 1 to 8 the image encoded
    is the decoded image under, respectively, the identity, FlipH,
    Rotate180, FlipV, Transpose, Rotate270, Transverse, Rotate90.  When the
    EXIF block cannot be decoded, the tag is absent, or its value cannot
    be read, processing goes on with the decoded image as it is.  PNG and
    WebP input is encoded as decoded, whatever EXIF data the bytes
    hold. *)
Theorem C8_orientation_jpeg_only (p : ImageProcessor) (data : bytes) (img : image) :
  (jpeg_Decode data = inl img →
     (∀ x t orient,
        exif_Decode data = inl x → exif_Get_Orientation x = inl t →
        tag_Int0 t = inl orient → 1 <= orient <= 8 →
        Process p data "image/jpeg" = encoded p (documented_transform orient img))
     ∧ (∀ err, exif_Decode data = inr err →
        Process p data "image/jpeg" = encoded p img)
     ∧ (∀ x err, exif_Decode data = inl x → exif_Get_Orientation x = inr err →
        Process p data "image/jpeg" = encoded p img)
     ∧ (∀ x t err, exif_Decode data = inl x → exif_Get_Orientation x = inl t →
        tag_Int0 t = inr err →
        Process p data "image/jpeg" = encoded p img))
  ∧ (png_Decode data = inl img → Process p data "image/png" = encoded p img)
  ∧ (xwebp_Decode data = inl img → Process p data "image/webp" = encoded p img).
Proof.
  split; [|split].
  - intros Hdec.
    assert (Hp : Process p data "image/jpeg" = encoded p (fixOrientation p data img)).
    { unfold Process, decodeImage. cbn. by rewrite Hdec. }
    rewrite Hp. repeat split.
    + intros x t orient Hx Ht Ho _.
      by rewrite (fixOrientation_table p data img x t orient Hx Ht Ho).
    + intros err Hx. unfold fixOrientation. by rewrite Hx.
    + intros x err Hx Ht. unfold fixOrientation. by rewrite Hx, Ht.
    + intros x t err Hx Ht Ho. unfold fixOrientation. by rewrite Hx, Ht, Ho.
  - intros Hdec. unfold Process, decodeImage. cbn. by rewrite Hdec.
  - intros Hdec. unfold Process, decodeImage. cbn. by rewrite Hdec.
Qed.


(** ** Errors of the core operations *)

Lemma Process_error_kind (p : ImageProcessor) (data : bytes) (mimeType : string) (e : error) :
  Process p data mimeType = inr e →
  is_fmt_error e = true ∧ kind_of_message (Error e) = Some ProcessingFailed.
Proof.
  unfold Process. intros Heq.
  destruct (decodeImage p data mimeType) as [[img format]|err].
  - destruct (encodeWebP p _) as [d|err]; [discriminate|].
    injection Heq as <-. split; reflexivity.
  - injection Heq as <-. split; reflexivity.
Qed.

Lemma Upload_error_kind (s : ImageService) (w : World) (file : Reader) (originalSize : Z)
    (s' : ImageService) (w' : World) (e : error) :
  Upload s w file originalSize = (s', w', inr e) →
  is_fmt_error e = true ∧
  ∃ k, kind_of_message (Error e) = Some k ∧
       k ∈ [ReadFailed; InvalidFileType; FileTooLarge; ProcessingFailed;
            StorageFailed; MetadataFailed].
Proof.
  unfold Upload. intros Heq.
  destruct (io_ReadAll file) as [data|err].
  2:{ injection Heq as <- <- <-. split; [reflexivity|].
      exists ReadFailed. split; [reflexivity | in_list]. }
  destruct (negb (ValidateMimeType _ _)).
  { injection Heq as <- <- <-. split; [reflexivity|].
    exists InvalidFileType. split; [reflexivity | in_list]. }
  destruct (_ <? _).
  { injection Heq as <- <- <-. split; [reflexivity|].
    exists FileTooLarge. split; [reflexivity | in_list]. }
  destruct (Process _ _ _) as [result|err].
  2:{ injection Heq as <- <- <-. split; [reflexivity|].
      exists ProcessingFailed. split; [reflexivity | in_list]. }
  cbn [uuid_New] in Heq.
  destruct (Save _ _ _) as [w2 [url|err]].
  2:{ injection Heq as <- <- <-. split; [reflexivity|].
      exists StorageFailed. split; [reflexivity | in_list]. }
  destruct (MetadataStore.Add _ _ _) as [[m w3] [err|]].
  2:{ discriminate Heq. }
  destruct (Delete w3 _) as [w4 r].
  injection Heq as <- <- <-. split; [reflexivity|].
  exists MetadataFailed. split; [reflexivity | in_list].
Qed.

Lemma GetImage_error_kind (s : ImageService) (w w' : World) (id : string) (e : error) :
  GetImage s w id = (w', inr e) →
  is_fmt_error e = true ∧ kind_of_message (Error e) = Some NotFound.
Proof.
  unfold GetImage. destruct (MetadataStore.Get _ _ _) as [w1 [img|]]; intros Heq.
  - discriminate Heq.
  - injection Heq as <- <-. split; reflexivity.
Qed.

Lemma DeleteImage_error_kind (s s' : ImageService) (w w' : World) (id : string) (e : error) :
  DeleteImage s w id = (s', w', Some e) →
  is_fmt_error e = true ∧
  ∃ k, kind_of_message (Error e) = Some k ∧ k ∈ [NotFound; StorageFailed; MetadataFailed].
Proof.
  unfold DeleteImage. intros Heq.
  destruct (MetadataStore.Get _ _ _) as [w1 [img|]].
  2:{ injection Heq as <- <- <-. split; [reflexivity|].
      exists NotFound. split; [reflexivity | in_list]. }
  assert (Hmeta : ∀ w2 s2 w3 e3,
    match MetadataStore.Delete (metadata s) w2 id with
    | (m, w, Some err) =>
        (with_metadata m s, w, Some (fmt_Errorf_w "failed to delete metadata: " err))
    | (m, w, None) => (with_metadata m s, w, None)
    end = (s2, w3, Some e3) →
    is_fmt_error e3 = true ∧
    ∃ k, kind_of_message (Error e3) = Some k ∧ k ∈ [NotFound; StorageFailed; MetadataFailed]).
  { intros w2 s2 w3 e3 Hd.
    destruct (MetadataStore.Delete (metadata s) w2 id) as [[m w4] [err|]];
      [|discriminate Hd].
    injection Hd as <- <- <-. split; [reflexivity|].
    exists MetadataFailed. split; [reflexivity | in_list]. }
  destruct (_ || _ || _); [by eapply Hmeta|].
  destruct (Delete w1 _) as [w2 [err|]]; [|by eapply Hmeta].
  destruct (negb (os_IsNotExist err)); [|by eapply Hmeta].
  injection Heq as <- <- <-. split; [reflexivity|].
  exists StorageFailed. split; [reflexivity | in_list].
Qed.

(** C1 (amended).  Every error the core operations return is a value made
    by [fmt.Errorf]: a message, and with [%w] the wrapped cause.  The
    failure it stands for is found in the fixed literal its message starts
    with ("invalid file type: ", "file too large: ", "failed to process
    image: ", "failed to save file: ", "failed to save metadata: ", "image
    not found: ", ...), so classifying by the message prefix always
    succeeds; no separate kind is carried. *)
Theorem C1_kind_is_the_message_prefix :
  (∀ s w file originalSize s' w' e,
     Upload s w file originalSize = (s', w', inr e) →
     is_fmt_error e = true ∧
     ∃ k, kind_of_message (Error e) = Some k ∧
          k ∈ [ReadFailed; InvalidFileType; FileTooLarge; ProcessingFailed;
               StorageFailed; MetadataFailed])
  ∧ (∀ s w id w' e,
     GetImage s w id = (w', inr e) →
     is_fmt_error e = true ∧ kind_of_message (Error e) = Some NotFound)
  ∧ (∀ s w id s' w' e,
     DeleteImage s w id = (s', w', Some e) →
     is_fmt_error e = true ∧
     ∃ k, kind_of_message (Error e) = Some k ∧
          k ∈ [NotFound; StorageFailed; MetadataFailed])
  ∧ (∀ p data mimeType e,
     Process p data mimeType = inr e →
     is_fmt_error e = true ∧ kind_of_message (Error e) = Some ProcessingFailed).
Proof.
  repeat split.
  - eapply Upload_error_kind; eassumption.
  - eapply Upload_error_kind; eassumption.
  - eapply GetImage_error_kind; eassumption.
  - eapply GetImage_error_kind; eassumption.
  - eapply DeleteImage_error_kind; eassumption.
  - eapply DeleteImage_error_kind; eassumption.
  - eapply Process_error_kind; eassumption.
  - eapply Process_error_kind; eassumption.
Qed.


(** ** Traces *)

Lemma file_events_not_log (evs : list Event) (msg : string) :
  forallb is_file_event evs = true → EvLog msg ∉ evs.
Proof.
  induction evs as [|ev evs IH]; cbn; intros Hall Hin.
  - inversion Hin.
  - apply andb_true_iff in Hall as [Hev Hall].
    inversion Hin; subst; [discriminate Hev | by apply IH].
Qed.


Lemma saveLocked_trace (s : MetadataStore.t) (w : World) :
  ∃ evs, trace (MetadataStore.saveLocked s w).1 = trace w ++ evs ∧
         forallb is_file_event evs = true.
Proof.
  pose proof (saveLocked_spec s w) as Hs.
  destruct (MetadataStore.saveLocked s w) as [w' [e|]]; cbn [fst].
  - destruct Hs as [_ [_ Hevs]]. exact Hevs.
  - destruct Hs as [_ [data [_ [_ Htr]]]]. eexists. split; [exact Htr | reflexivity].
Qed.

Lemma mutate_trace (op : Mutation) (s : MetadataStore.t) (w : World) :
  ∃ evs, trace (mutate op s w).1.2 = trace w ++ [EvLock] ++ evs ++ [EvUnlock] ∧
         forallb is_file_event evs = true.
Proof.
  rewrite mutate_spec. cbn [fst snd].
  destruct (saveLocked_trace
              (MetadataStore.with_images (mutated op (MetadataStore.images s)) s)
              (MetadataStore.Lock w)) as [evs [Htr Hevs]].
  exists evs. split; [|exact Hevs].
  cbn [MetadataStore.Unlock emit trace]. rewrite Htr. cbn.
  by rewrite <- !app_assoc.
Qed.


Lemma Save_spec (w : World) (path : string) (data : bytes) :
  trace (Save w path data).1 = trace w ++ [EvStorageSave path data] ∧
  fs (Save w path data).1 = fs w.
Proof. unfold Save. cbn. by destruct (storage_Save _ _ _). Qed.

Lemma Delete_spec (w : World) (path : string) :
  trace (Delete w path).1 = trace w ++ [EvStorageDelete path] ∧
  fs (Delete w path).1 = fs w.
Proof. unfold Delete. cbn. by destruct (storage_Delete _ _). Qed.

(** ** Upload: compensation when the metadata cannot be saved *)

(** C4 (amended).  When Storage.Save succeeded and the metadata Add then
    fails, Upload calls Storage.Delete on the key it has just saved, drops
    whatever that call returns, and answers with the metadata error
    ("failed to save metadata: " followed by the cause, which it wraps).
    The delete is the last thing Upload does, and Upload writes no log
    entry, neither for the metadata failure nor for a failed delete. *)
Theorem C4_compensating_delete
    (s : ImageService) (w : World) (file : Reader) (originalSize : Z)
    (data : bytes) (result : ProcessResult) (url : string)
    (w2 w3 : World) (m : MetadataStore.t) (err : error) :
  io_ReadAll file = inl data →
  ValidateMimeType (detectMimeFromHeader data)
    (config.AllowedTypes (config.Image_ (config s))) = true →
  Z.of_nat (length data) <= config.MaxSize (config.Image_ (config s)) →
  Process (processor s) data (detectMimeFromHeader data) = inl result →
  Save (uuid_New w).1 (upload_key w) (pr_Data result) = (w2, inl url) →
  MetadataStore.Add (metadata s) w2 (upload_record w data originalSize result url)
  = (m, w3, Some err) →
  ∃ w4 r,
    Delete w3 (upload_key w) = (w4, r) ∧
    Upload s w file originalSize
    = (with_metadata m s, w4,
       inr (wrapError ("failed to save metadata: " +:+ Error err) err)) ∧
    trace w4 = trace w3 ++ [EvStorageDelete (upload_key w)] ∧
    ∀ msg, EvLog msg ∈ trace w4 → EvLog msg ∈ trace w.
Proof.
  intros Hread Hok Hsize Hproc Hsave Hadd.
  destruct (Delete w3 (upload_key w)) as [w4 r] eqn:Hdel.
  exists w4, r. split; [reflexivity|].
  assert (Htr4 : trace w4 = trace w3 ++ [EvStorageDelete (upload_key w)]).
  { pose proof (Delete_spec w3 (upload_key w)) as [Ht _]. by rewrite Hdel in Ht. }
  split; [|split; [exact Htr4|]].
  - unfold Upload. rewrite Hread, Hok. cbn [negb].
    destruct (Z.ltb_spec (config.MaxSize (config.Image_ (config s)))
                (Z.of_nat (length data))) as [Hlt|_]; [lia|].
    rewrite Hproc.
    change (uuid_New w) with ((uuid_New w).1, uuids w (uuid_next w)).
    cbv iota beta zeta.
    change (fmt_d (Year (time_Now w)) +:+ "/" +:+ fmt_02d (Month (time_Now w)) +:+ "/" +:+
            (uuids w (uuid_next w) +:+ ".webp")) with (upload_key w).
    rewrite Hsave.
    change {| ID := uuids w (uuid_next w); URL := url;
              OriginalFormat := mimeTypeToFormat (detectMimeFromHeader data);
              OriginalSize := originalSize;
              ProcessedSize := Z.of_nat (length (pr_Data result));
              Width := pr_Width result; Height := pr_Height result;
              CreatedAt := time_Now w;
              Filename := uuids w (uuid_next w) +:+ ".webp";
              StoragePath := upload_key w |}
      with (upload_record w data originalSize result url).
    rewrite Hadd, Hdel. reflexivity.
  - intros msg. rewrite Htr4.
    destruct (mutate_trace (MAdd (upload_record w data originalSize result url))
                (metadata s) w2) as [evs [Htr3 Hevs]].
    cbn [mutate] in Htr3. rewrite Hadd in Htr3. cbn [fst snd] in Htr3.
    pose proof (Save_spec (uuid_New w).1 (upload_key w) (pr_Data result)) as [Htr2 _].
    rewrite Hsave in Htr2. cbn [fst] in Htr2.
    rewrite Htr3, Htr2. cbn [uuid_New fst trace].
    pose proof (file_events_not_log evs msg Hevs) as Hnot.
    rewrite !elem_of_app, !list_elem_of_singleton.
    intros [[[Hin|Hin]|[Hin|[Hin|Hin]]]|Hin];
      [exact Hin | discriminate Hin | discriminate Hin | by destruct Hnot
      | discriminate Hin | discriminate Hin].
Qed.


(** ** DeleteImage *)

Lemma split_colon_nonempty (s : list ascii) (cur : string) :
  split_colon s cur ≠ [].
Proof.
  revert cur. induction s as [|c r IH]; intros cur; cbn; [done|].
  destruct (Ascii.eqb c ":"); [done | apply IH].
Qed.

(** The guard of [DeleteImage] says: the key is empty or has no recognized
    image extension. *)
Lemma key_guard (key : string) :
  String.eqb key "" || String.eqb key "/" || negb (isValidStoragePath key)
  = String.eqb key "" || negb (recognized_ext key).
Proof.
  unfold isValidStoragePath, filepath_SplitList.
  destruct (String.eqb_spec key "") as [->|Hne]; [reflexivity|].
  destruct (String.eqb_spec key "/") as [->|Hne']; [reflexivity|].
  pose proof (split_colon_nonempty (String.list_ascii_of_string key) "") as Hparts.
  destruct (split_colon _ _) as [|part parts]; [done | reflexivity].
Qed.



(** ** ListImages *)

(** [List] returns every record of the table once, newest first. *)
Lemma List_sorted (s : MetadataStore.t) (w : World) :
  StronglySorted newest_first (MetadataStore.List s w).2 ∧
  (MetadataStore.List s w).2 ≡ₚ (map_to_list (MetadataStore.images s)).*2.
Proof.
  unfold MetadataStore.List. cbn [snd]. split.
  - apply StronglySorted_merge_sort; apply _.
  - apply merge_sort_Permutation.
Qed.

Lemma wrap_small (z : Z) : is_int z → wrap z = z.
Proof.
  unfold is_int, int_min, int_max, wrap. intros Hz.
  rewrite Z.mod_small by lia. lia.
Qed.

Lemma slice_window {A} (l : list A) (start n : Z) :
  0 <= start → 0 <= n →
  let len := Z.of_nat (length l) in
  slice l (if len <=? start then len else start)
          (if len <? start + n then len else start + n)
  = Some (take (Z.to_nat n) (drop (Z.to_nat start) l)).
Proof.
  intros Hs Hn len. unfold slice. fold len.
  destruct (Z.leb_spec len start) as [Hge|Hlt].
  - destruct (Z.ltb_spec len (start + n)) as [_|Hle].
    + replace ((0 <=? len) && (len <=? len) && (len <=? len)) with true
        by (symmetry; rewrite !andb_true_iff, !Z.leb_le; lia).
      f_equal. rewrite (drop_ge l (Z.to_nat start)) by lia.
      rewrite Z.sub_diag. by rewrite take_nil.
    + assert (n = 0) as -> by lia. assert (start = len) as -> by lia.
      replace ((0 <=? len) && (len <=? len + 0) && (len + 0 <=? len)) with true
        by (symmetry; rewrite !andb_true_iff, !Z.leb_le; lia).
      f_equal. replace (len + 0 - len) with 0 by lia. reflexivity.
  - destruct (Z.ltb_spec len (start + n)) as [Hbig|Hle].
    + replace ((0 <=? start) && (start <=? len) && (len <=? len)) with true
        by (symmetry; rewrite !andb_true_iff, !Z.leb_le; lia).
      f_equal. rewrite !take_ge; [reflexivity | |]; rewrite length_drop; lia.
    + replace ((0 <=? start) && (start <=? start + n) && (start + n <=? len)) with true
        by (symmetry; rewrite !andb_true_iff, !Z.leb_le; lia).
      f_equal. by replace (start + n - start) with n by lia.
Qed.

Lemma ceil_div (total n : Z) :
  0 <= total → 0 < n →
  (if 0 <? Z.rem total n then Z.quot total n + 1 else Z.quot total n)
  = (total + n - 1) / n.
Proof.
  intros Ht Hn.
  rewrite Z.rem_mod_nonneg, Z.quot_div_nonneg by lia.
  pose proof (Z.div_mod total n ltac:(lia)) as Hdm.
  pose proof (Z.mod_pos_bound total n Hn) as Hb.
  destruct (Z.ltb_spec 0 (total mod n)) as [Hpos|Hzero].
  - apply (Z.div_unique_pos _ _ _ (total mod n - 1)); lia.
  - apply (Z.div_unique_pos _ _ _ (n - 1)); lia.
Qed.

(** As long as the window bounds fit a Go [int], ListImages returns the
    clamped page and page size, the window
    [(page-1)*pageSize, min(page*pageSize, total)) of the newest-first
    list, the total, and the rounded-up page count. *)
Lemma ListImages_in_range (s : ImageService) (w : World) (page pageSize : Z) :
  let page' := if page <? 1 then 1 else page in
  let pageSize' := if (pageSize <? 1) || (100 <? pageSize) then 20 else pageSize in
  let all := (MetadataStore.List (metadata s) w).2 in
  let total := Z.of_nat (length all) in
  total <= int_max →
  (page' - 1) * pageSize' + pageSize' <= int_max →
  1 <= page' ∧ 1 <= pageSize' <= 100 ∧
  ListImages s w page pageSize
  = ((MetadataStore.List (metadata s) w).1,
     Some {| pl_Items := toListItem <$>
               take (Z.to_nat pageSize') (drop (Z.to_nat ((page' - 1) * pageSize')) all);
             pl_Total := total;
             pl_Page := page';
             pl_PageSize := pageSize';
             pl_TotalPages := (total + pageSize' - 1) / pageSize' |}).
Proof.
  intros page' pageSize' all total Htotal Hfit.
  assert (Hpage : 1 <= page').
  { unfold page'. destruct (Z.ltb_spec page 1); lia. }
  assert (Hsize : 1 <= pageSize' <= 100).
  { unfold pageSize'. destruct (Z.ltb_spec pageSize 1); cbn; [lia|].
    destruct (Z.ltb_spec 100 pageSize); lia. }
  split; [exact Hpage|]. split; [exact Hsize|].
  unfold ListImages. fold page'. fold pageSize'.
  destruct (MetadataStore.List (metadata s) w) as [w1 all0] eqn:Hlist.
  cbn [fst snd] in *. subst all. fold total.
  assert (Hint : ∀ z, 0 <= z <= int_max → wrap z = z).
  { intros z Hz. apply wrap_small. unfold is_int, int_min, int_max in *. lia. }
  unfold int_mul, int_sub, int_add, int_div, int_rem, int_max in *.
  assert (0 <= (page' - 1) * pageSize') by nia.
  rewrite (Hint (page' - 1)) by nia.
  rewrite (Hint ((page' - 1) * pageSize')) by nia.
  rewrite (Hint ((page' - 1) * pageSize' + pageSize')) by nia.
  pose proof (slice_window all0 ((page' - 1) * pageSize') pageSize'
                ltac:(lia) ltac:(lia)) as Hslice.
  cbv zeta in Hslice. fold total in Hslice.
  set (start := if total <=? (page' - 1) * pageSize' then total
                else (page' - 1) * pageSize') in *.
  set (end_ := if total <? (page' - 1) * pageSize' + pageSize' then total
               else (page' - 1) * pageSize' + pageSize') in *.
  assert (Hrange : 0 <= start <= end_ ∧ end_ <= int_max).
  { unfold start, end_, int_max.
    destruct (Z.leb_spec total ((page' - 1) * pageSize'));
      destruct (Z.ltb_spec total ((page' - 1) * pageSize' + pageSize')); lia. }
  unfold int_max in Hrange.
  rewrite (Hint (end_ - start)) by (unfold int_max; lia).
  destruct (Z.ltb_spec (end_ - start) 0) as [Hneg|_]; [lia|].
  rewrite Hslice.
  assert (Hq : 0 <= Z.quot total pageSize' <= total).
  { rewrite Z.quot_div_nonneg by lia. split; [apply Z.div_pos; lia|].
    apply Z.div_le_upper_bound; nia. }
  rewrite (Hint (Z.quot total pageSize')) by (unfold int_max; lia).
  assert (Hceil := ceil_div total pageSize' ltac:(lia) ltac:(lia)).
  pose proof (Z.quot_rem' total pageSize') as Hqr.
  destruct (Z.ltb_spec 0 (Z.rem total pageSize')) as [Hpos|_].
  - rewrite Hint by (unfold int_max; nia). by rewrite Hceil.
  - by rewrite Hceil.
Qed.

End results.

(** * The results on concrete runs *)

(** ** The Go helpers *)

Example sniff_jpeg :
  detectMimeFromHeader [Byte.xff; Byte.xd8; Byte.xff; Byte.xe0] = "image/jpeg".
Proof. reflexivity. Qed.

Example sniff_png :
  detectMimeFromHeader
    [Byte.x89; Byte.x50; Byte.x4e; Byte.x47; Byte.x0d; Byte.x0a; Byte.x1a; Byte.x0a]
  = "image/png".
Proof. reflexivity. Qed.

Example ext_webp : filepath_Ext "2024/12/abc.webp" = ".webp".
Proof. reflexivity. Qed.

Example ext_dir_dot : filepath_Ext "a.b/c" = "".
Proof. reflexivity. Qed.

Example fmt_examples : fmt_02d 7 = "07" /\ fmt_02d 12 = "12" /\ fmt_d 2024 = "2024".
Proof. repeat split; reflexivity. Qed.

(** ** C1 *)

(** A three-byte upload and an oversized PNG are refused with errors of the
    same dynamic type that differ in their message only: no classifier that
    leaves the message unread can tell the invalid file type from the file
    too large. *)
Lemma C1_counterexample :
  ∃ e1 e2,
    (Upload Ref.svc_small Ref.world0 (Ref.reader [Byte.x01; Byte.x02; Byte.x03]) 3).2
    = inr e1 ∧
    (Upload Ref.svc_small Ref.world0 (Ref.reader Ref.png_input) 12).2 = inr e2 ∧
    Error e1 = "invalid file type: application/octet-stream" ∧
    Error e2 = "file too large: 12 bytes (max: 8)" ∧
    shape e1 = shape e2 ∧
    ∀ classify : error → FailureKind,
      message_blind classify →
      ¬ (classify e1 = InvalidFileType ∧ classify e2 = FileTooLarge).
Proof.
  exists (errorString "invalid file type: application/octet-stream"),
         (errorString "file too large: 12 bytes (max: 8)").
  split; [reflexivity|]. split; [reflexivity|].
  split; [reflexivity|]. split; [reflexivity|]. split; [reflexivity|].
  intros classify Hblind [H1 H2].
  pose proof (Hblind (errorString "invalid file type: application/octet-stream")
                     (errorString "file too large: 12 bytes (max: 8)") eq_refl) as Heq.
  congruence.
Qed.

Lemma C1_witness :
  ∃ k, kind_of_message
         (Error (errorString "invalid file type: application/octet-stream")) = Some k ∧
       k ∈ [ReadFailed; InvalidFileType; FileTooLarge; ProcessingFailed;
            StorageFailed; MetadataFailed].
Proof.
  refine (proj2 (proj1 (@C1_kind_is_the_message_prefix
                          Ref.memStorage Ref.lineJSON Ref.gridImaging)
                   Ref.svc_small Ref.world0
                   (Ref.reader [Byte.x01; Byte.x02; Byte.x03]) 3
                   Ref.svc_small Ref.world0 _ _)).
  reflexivity.
Defined.

(** The handler, which does read the message, answers a metadata failure
    with the storage code: "failed to save metadata" contains "failed to
    save". *)
Example handler_takes_metadata_for_storage :
  ∃ e, (Upload Ref.svc0 Ref.world_stuck (Ref.reader Ref.jpeg_plain) 10).2 = inr e ∧
       kind_of_message (Error e) = Some MetadataFailed ∧
       handler.Upload_error e
       = (handler.StatusInternalServerError, CodeStorageFailed).
Proof. eexists. split; [vm_compute; reflexivity|]. split; vm_compute; reflexivity. Qed.

(** ** C3, C9 *)

Lemma C3_witness :
  (Upload Ref.svc_small Ref.world0 (Ref.reader (Ref.png_input ++ [Byte.x00])) 13
   = (Ref.svc_small, Ref.world0, inr (errorString "file too large: 13 bytes (max: 8)")))
  ∧ (Upload Ref.svc_small Ref.world0 (Ref.reader (replicate 9 Byte.x00)) 9
     = (Ref.svc_small, Ref.world0,
        inr (errorString "invalid file type: application/octet-stream"))).
Proof.
  split.
  - destruct (proj2 (C3_type_check_before_size_check Ref.svc_small Ref.world0
                       (Ref.reader (Ref.png_input ++ [Byte.x00])) 13 _ eq_refl)
                eq_refl ltac:(vm_compute; reflexivity)) as [msg [Hup [-> _]]].
    exact Hup.
  - exact (proj1 (proj1 (C3_type_check_before_size_check Ref.svc_small Ref.world0
                           (Ref.reader (replicate 9 Byte.x00)) 9 _ eq_refl) eq_refl)).
Defined.

Lemma C9_witness :
  detectMimeFromHeader [] = "application/octet-stream" ∧
  Upload Ref.svc0 Ref.world0 (Ref.reader []) 0
  = (Ref.svc0, Ref.world0,
     inr (errorString "invalid file type: application/octet-stream")).
Proof.
  apply (C9_short_input_is_rejected Ref.svc0 Ref.world0 (Ref.reader []) 0 []).
  - reflexivity.
  - cbn. lia.
  - repeat constructor.
Defined.

(** ** C2, C10 *)

(** After a first, successful Add the file holds the table.  A second Add
    whose rename fails reports the error; the record is in the table in
    memory all the same, and the file no longer matches it. *)
Lemma C2_counterexample :
  let first := MetadataStore.Add Ref.store0 Ref.world0 (Ref.rec 0) in
  let second :=
    MetadataStore.Add first.1.1 (Ref.faulty_rename EROFS first.1.2) (Ref.rec 1) in
  first.2 = None ∧ on_disk first.1.1 first.1.2 ∧ is_Some second.2 ∧
  MetadataStore.images second.1.1 !! ID (Ref.rec 1) = Some (Ref.rec 1) ∧
  ¬ on_disk second.1.1 second.1.2.
Proof.
  cbv zeta. split; [vm_compute; reflexivity|].
  split; [eexists; split; vm_compute; reflexivity|].
  split; [eexists; vm_compute; reflexivity|].
  split; [vm_compute; reflexivity|].
  intros [data [Hm Hf]]. vm_compute in Hm, Hf.
  injection Hm as <-. discriminate Hf.
Qed.

Lemma C2_witness :
  on_disk (MetadataStore.Add Ref.store0 Ref.world0 (Ref.rec 0)).1.1
          (MetadataStore.Add Ref.store0 Ref.world0 (Ref.rec 0)).1.2.
Proof.
  pose proof (C2_mutation_and_disk (MAdd (Ref.rec 0)) Ref.store0 Ref.world0) as Hc.
  cbn [mutate] in Hc.
  assert (Hr : (MetadataStore.Add Ref.store0 Ref.world0 (Ref.rec 0)).2 = None)
    by (vm_compute; reflexivity).
  destruct (MetadataStore.Add Ref.store0 Ref.world0 (Ref.rec 0)) as [[s1 w1] r1].
  cbn [snd] in Hr. subst r1. exact (proj1 (proj2 (proj2 (proj2 Hc)))).
Defined.

(** A record is in the table, the disk is full: adding a record under the
    same identifier reports an error. *)
Lemma C10_counterexample :
  let s := metadata (Ref.svc_with (Ref.table 1)) in
  is_Some (MetadataStore.images s !! ID (Ref.rec 0)) ∧
  ∃ e, (MetadataStore.Add s (Ref.faulty_write ENOSPC Ref.world0) (Ref.rec 0)).2 = Some e.
Proof. split; [by eexists | eexists; vm_compute; reflexivity]. Qed.

Lemma C10_witness :
  let s := metadata (Ref.svc_with (Ref.table 1)) in
  (MetadataStore.Count (MetadataStore.Add s Ref.world0 (Ref.rec 0)).1.1 Ref.world0).2 = 1 ∧
  (MetadataStore.Count (MetadataStore.Add s Ref.world0 (Ref.rec 1)).1.1 Ref.world0).2 = 2.
Proof.
  intros s. split.
  - pose proof (C10_add_overwrites s Ref.world0 (Ref.rec 0) Ref.world0) as Hc.
    destruct (MetadataStore.Add s Ref.world0 (Ref.rec 0)) as [[s' w'] r].
    destruct Hc as (_ & _ & Hsame & _). cbn [fst]. rewrite Hsame; [reflexivity|].
    by eexists.
  - pose proof (C10_add_overwrites s Ref.world0 (Ref.rec 1) Ref.world0) as Hc.
    destruct (MetadataStore.Add s Ref.world0 (Ref.rec 1)) as [[s' w'] r].
    destruct Hc as (_ & _ & _ & Hnew). cbn [fst]. rewrite Hnew; reflexivity.
Defined.

(** ** C4 *)

(** The metadata directory is read-only and the backend refuses to delete:
    Upload answers with the metadata error alone, the object it saved stays
    in the backend, and the trace holds no log entry. *)
Lemma C4_counterexample :
  let run := Upload Ref.svc0 Ref.world_stuck (Ref.reader Ref.jpeg_plain) 10 in
  (∃ e, run.2 = inr e ∧
        Error e = "failed to save metadata: open data/metadata.json.tmp: read-only file system") ∧
  last (trace run.1.2) = Some (EvStorageDelete "2024/12/id-0.webp") ∧
  (storage_Delete (objects run.1.2) "2024/12/id-0.webp").2
  = Some (LibError "storage" "backend unavailable") ∧
  is_Some (Ref.objs (objects run.1.2) !! "2024/12/id-0.webp") ∧
  ¬ ∃ msg, EvLog msg ∈ trace run.1.2.
Proof.
  cbv zeta.
  split; [eexists; split; vm_compute; reflexivity|].
  split; [vm_compute; reflexivity|].
  split; [vm_compute; reflexivity|].
  split; [eexists; vm_compute; reflexivity|].
  intros [msg Hin].
  assert (Htr : trace (Upload Ref.svc0 Ref.world_stuck (Ref.reader Ref.jpeg_plain) 10).1.2
                = [EvStorageSave "2024/12/id-0.webp"
                     (bytes_of "RIFF" ++ [Byte.x01; Byte.x02; Byte.x03; Byte.x04]);
                   EvLock;
                   EvWriteFile "data/metadata.json.tmp"
                     (bytes_of ("{  " +:+ Ref.quoted "id-0" +:+ ": {" +:+
                                Ref.quoted "id" +:+ ": " +:+ Ref.quoted "id-0" +:+ ", " +:+
                                Ref.quoted "url" +:+ ": " +:+
                                Ref.quoted "/images/2024/12/id-0.webp" +:+ ", " +:+
                                Ref.quoted "processed_size" +:+ ": 8}}"));
                   EvUnlock;
                   EvStorageDelete "2024/12/id-0.webp"])
    by (vm_compute; reflexivity).
  rewrite Htr in Hin.
  repeat (apply elem_of_cons in Hin as [Hin|Hin]; [discriminate Hin|]).
  inversion Hin.
Qed.

Lemma C4_witness :
  ∃ w4 e,
    Upload Ref.svc0 Ref.world_stuck (Ref.reader Ref.jpeg_plain) 10
    = (with_metadata
         (MetadataStore.with_images {[ "id-0" := upload_record Ref.world_stuck
              Ref.jpeg_plain 10
              {| pr_Data := bytes_of "RIFF" ++ [Byte.x01; Byte.x02; Byte.x03; Byte.x04];
                 pr_Width := 2; pr_Height := 2; pr_Format := "webp" |}
              "/images/2024/12/id-0.webp" ]} Ref.store0)
         Ref.svc0, w4, inr e).
Proof.
  edestruct (C4_compensating_delete Ref.svc0 Ref.world_stuck (Ref.reader Ref.jpeg_plain) 10
               Ref.jpeg_plain) as (w4 & r & _ & Hup & _).
  - reflexivity.
  - reflexivity.
  - vm_compute. discriminate.
  - vm_compute. reflexivity.
  - vm_compute. reflexivity.
  - vm_compute. reflexivity.
  - exists w4. eexists. exact Hup.
Defined.

(** ** C5 *)



(** ** C6 *)

Lemma C6_witness :
  (∃ w', MetadataStore.NewMetadataStore Ref.world0 "data"
         = (w', inl Ref.store0))
  ∧ (∃ w' err,
       MetadataStore.NewMetadataStore
         (with_files {[ "data/metadata.json" := Unreadable ]} Ref.world0) "data"
       = (w', inr err))
  ∧ (∃ w',
       MetadataStore.NewMetadataStore
         (with_files {[ "data/metadata.json" := Regular (bytes_of "{oops") ]} Ref.world0)
         "data"
       = (w', inr (SyntaxError "invalid character looking for beginning of value")))
  ∧ (∃ w',
       MetadataStore.NewMetadataStore
         (with_files {[ "data/metadata.json" := Regular (bytes_of "{}") ]} Ref.world0)
         "data"
       = (w', inl Ref.store0)).
Proof.
  split; [|split; [|split]].
  - exact (proj1 (C6_startup_load Ref.world0 "data") eq_refl).
  - refine (proj1 (proj2 (C6_startup_load
             (with_files {[ "data/metadata.json" := Unreadable ]} Ref.world0) "data"))
             Unreadable eq_refl _).
    intros data. discriminate.
  - exact (proj1 (proj2 (proj2 (C6_startup_load
             (with_files {[ "data/metadata.json" := Regular (bytes_of "{oops") ]}
                Ref.world0) "data")))
             (bytes_of "{oops") ∅ _ eq_refl eq_refl).
  - exact (proj2 (proj2 (proj2 (C6_startup_load
             (with_files {[ "data/metadata.json" := Regular (bytes_of "{}") ]}
                Ref.world0) "data")))
             (bytes_of "{}") ∅ eq_refl eq_refl).
Defined.

(** ** C8 *)

Lemma C8_witness :
  Process (NewImageProcessor 75) (Ref.jpeg_orient Byte.x06) "image/jpeg"
  = inl {| pr_Data := bytes_of "RIFF" ++
                      [Byte.x04; Byte.x01; Byte.x05; Byte.x02; Byte.x06; Byte.x03];
           pr_Width := 2; pr_Height := 3; pr_Format := "webp" |}
  ∧ Process (NewImageProcessor 75) Ref.jpeg_plain "image/jpeg"
    = inl {| pr_Data := bytes_of "RIFF" ++ [Byte.x01; Byte.x02; Byte.x03; Byte.x04];
             pr_Width := 2; pr_Height := 2; pr_Format := "webp" |}
  ∧ Process (NewImageProcessor 75) Ref.png_input "image/png"
    = inl {| pr_Data := bytes_of "RIFF" ++
                        [Byte.x1a; Byte.x0a; Byte.x01; Byte.x02; Byte.x03; Byte.x04];
             pr_Width := 6; pr_Height := 1; pr_Format := "webp" |}.
Proof.
  split; [|split].
  - rewrite (proj1 (proj1 (@C8_orientation_jpeg_only Ref.gridImaging (NewImageProcessor 75)
                             (Ref.jpeg_orient Byte.x06)
                             [[Byte.x01; Byte.x02; Byte.x03]; [Byte.x04; Byte.x05; Byte.x06]])
                      eq_refl)
               6 6 6 eq_refl eq_refl eq_refl ltac:(lia)).
    vm_compute. reflexivity.
  - rewrite (proj1 (proj2 (proj1 (@C8_orientation_jpeg_only Ref.gridImaging (NewImageProcessor 75)
                                    Ref.jpeg_plain
                                    [[Byte.x01; Byte.x02]; [Byte.x03; Byte.x04]])
                             eq_refl))
               (LibError "exif" "no exif data") eq_refl).
    vm_compute. reflexivity.
  - rewrite (proj1 (proj2 (@C8_orientation_jpeg_only Ref.gridImaging (NewImageProcessor 75)
                             Ref.png_input
                             [[Byte.x1a; Byte.x0a; Byte.x01; Byte.x02; Byte.x03; Byte.x04]]))
               eq_refl).
    vm_compute. reflexivity.
Defined.

(** ** C7 *)

(** With 25 records and page size 10: page 1 is records[0:10], page 3 is
    records[20:25], and there are 3 pages; a page size outside [1,100]
    becomes 20 and a page below 1 becomes 1. *)
Example ListImages_25_records :
  let s := Ref.svc_with (Ref.table 25) in
  let all := (MetadataStore.List (metadata s) Ref.world0).2 in
  length all = 25%nat ∧
  (pl_Items <$> (ListImages s Ref.world0 1 10).2) = Some (toListItem <$> take 10 all) ∧
  (pl_Items <$> (ListImages s Ref.world0 3 10).2)
  = Some (toListItem <$> take 5 (drop 20 all)) ∧
  (pl_TotalPages <$> (ListImages s Ref.world0 3 10).2) = Some 3 ∧
  ((λ p, (pl_Page p, pl_PageSize p, pl_Total p, pl_TotalPages p))
     <$> (ListImages s Ref.world0 0 101).2) = Some (1, 20, 25, 2).
Proof. vm_compute. repeat split; reflexivity. Qed.

(** C7.  The window start is computed as [(page - 1) * pageSize] in 64-bit
    arithmetic.  For page 4611686018427387905 (2^62 + 1, a value an [int]
    holds) and page size 4 the product wraps to 0: with 25 records the
    documented window starts beyond the total and is empty, yet ListImages
    returns the four newest records.  With page size 2 the product wraps to
    a negative start and the slice expression panics. *)
Theorem C7_window_start_overflows :
  let s := Ref.svc_with (Ref.table 25) in
  let all := (MetadataStore.List (metadata s) Ref.world0).2 in
  let page := 4611686018427387905 in
  is_int page ∧
  Z.of_nat (length all) = 25 ∧
  Z.of_nat (length all) <= (page - 1) * 4 ∧
  (pl_Items <$> (ListImages s Ref.world0 page 4).2) = Some (toListItem <$> take 4 all) ∧
  (length <$> (pl_Items <$> (ListImages s Ref.world0 page 4).2)) = Some 4%nat ∧
  (ListImages s Ref.world0 page 2).2 = None.
Proof.
  cbv zeta. split; [unfold is_int, int_min, int_max; lia|].
  split; [vm_compute; reflexivity|].
  split; [vm_compute; discriminate|].
  split; [vm_compute; reflexivity|].
  split; vm_compute; reflexivity.
Qed.

Lemma ListImages_in_range_witness :
  (ListImages (Ref.svc_with (Ref.table 25)) Ref.world0 3 10).2
  = Some {| pl_Items := toListItem <$>
              take 10 (drop 20 (MetadataStore.List
                         (metadata (Ref.svc_with (Ref.table 25))) Ref.world0).2);
            pl_Total := 25; pl_Page := 3; pl_PageSize := 10; pl_TotalPages := 3 |}.
Proof.
  pose proof (ListImages_in_range (Ref.svc_with (Ref.table 25)) Ref.world0 3 10) as Hr.
  cbv zeta in Hr.
  destruct Hr as (_ & _ & Hrun).
  - vm_compute. discriminate.
  - vm_compute. discriminate.
  - rewrite Hrun. vm_compute. reflexivity.
Defined.

(** * More results: the rest of the service layer *)

Section more_results.
Context `{Storage} `{JSON} `{Imaging}.

Ltac in_literal := repeat first [apply list_elem_of_here | apply list_elem_of_further].

(** ** The metadata store: reads after writes *)

(** X1.  What Add stores, Get returns: after Add, Get of the record's
    identifier gives back the record, field by field, and every other
    identifier reads as before.  This holds also when Add reports an
    error. *)
Theorem Add_then_Get (s : MetadataStore.t) (w : World) (img : Image) (w1 : World) :
  let '(s', _, _) := MetadataStore.Add s w img in
  (MetadataStore.Get s' w1 (ID img)).2 = Some img ∧
  ∀ id, id ≠ ID img → (MetadataStore.Get s' w1 id).2 = (MetadataStore.Get s w1 id).2.
Proof.
  pose proof (mutate_spec (MAdd img) s w) as Hm. cbn [mutate mutated] in Hm.
  cbv zeta in Hm. rewrite Hm. clear Hm.
  cbn [MetadataStore.Get MetadataStore.with_images MetadataStore.images snd]. split.
  - apply lookup_insert_eq.
  - intros id Hne. by rewrite lookup_insert_ne.
Qed.

(** X2.  After Delete, Get of that identifier finds nothing, every other
    identifier reads as before, and the count went down by one when the
    identifier was present and stayed when it was not (deleting an absent
    identifier is no error of its own). *)
Theorem Delete_then_Get (s : MetadataStore.t) (w : World) (id : string) (w1 : World) :
  let '(s', _, _) := MetadataStore.Delete s w id in
  (MetadataStore.Get s' w1 id).2 = None ∧
  (∀ id', id' ≠ id → (MetadataStore.Get s' w1 id').2 = (MetadataStore.Get s w1 id').2) ∧
  (MetadataStore.Count s' w1).2
  = (MetadataStore.Count s w1).2 -
    (if MetadataStore.images s !! id is Some _ then 1 else 0).
Proof.
  pose proof (mutate_spec (MDelete id) s w) as Hm. cbn [mutate mutated] in Hm.
  cbv zeta in Hm. rewrite Hm. clear Hm.
  cbn [MetadataStore.Get MetadataStore.Count MetadataStore.with_images
         MetadataStore.images snd].
  split; [apply lookup_delete_eq|]. split.
  - intros id' Hne. by rewrite lookup_delete_ne.
  - rewrite map_size_delete.
    destruct (MetadataStore.images s !! id) as [img|] eqn:Hid; cbn; [|lia].
    assert (size (MetadataStore.images s) ≠ 0%nat); [|lia].
    intros Hz. apply map_size_empty_inv in Hz. rewrite Hz in Hid.
    by rewrite lookup_empty in Hid.
Qed.

(** X3.  List returns exactly the records of the table, each as often as
    the table holds it, ordered so that no record is followed by a newer
    one; its length is what Count reports. *)
Theorem List_is_the_table (s : MetadataStore.t) (w : World) :
  let l := (MetadataStore.List s w).2 in
  (∀ img, img ∈ l ↔ ∃ id, MetadataStore.images s !! id = Some img) ∧
  l ≡ₚ (map_to_list (MetadataStore.images s)).*2 ∧
  StronglySorted newest_first l ∧
  Z.of_nat (length l) = (MetadataStore.Count s w).2.
Proof.
  destruct (List_sorted s w) as [Hsorted Hperm]. cbv zeta.
  split; [|split; [exact Hperm|split; [exact Hsorted|]]].
  - intros img. rewrite Hperm, list_elem_of_fmap. split.
    + intros [[id img'] [-> Hin]]. exists id. by apply elem_of_map_to_list.
    + intros [id Hid]. exists (id, img). split; [reflexivity|].
      by apply elem_of_map_to_list.
  - rewrite Hperm, length_fmap, length_map_to_list. reflexivity.
Qed.

(** ** The metadata store: when a mutation fails *)

Lemma mutate_outcome (op : Mutation) (s : MetadataStore.t) (w : World) :
  let '(s', w', r) := mutate op s w in
  let tmp := MetadataStore.filePath s +:+ ".tmp" in
  MetadataStore.images s' = mutated op (MetadataStore.images s) ∧
  MetadataStore.filePath s' = MetadataStore.filePath s ∧
  write_fault (fs w') = write_fault (fs w) ∧
  rename_fault (fs w') = rename_fault (fs w) ∧
  uuids w' = uuids w ∧ uuid_next w' = uuid_next w ∧ clock w' = clock w ∧
  objects w' = objects w ∧
  r = match json_MarshalIndent (mutated op (MetadataStore.images s)) with
      | inr msg => Some (LibError "json" msg)
      | inl _ =>
          match write_fault (fs w) with
          | Some e => Some (PathError "open" tmp e)
          | None =>
              match rename_fault (fs w) with
              | Some e => Some (PathError "rename" tmp e)
              | None => None
              end
          end
      end ∧
  match json_MarshalIndent (mutated op (MetadataStore.images s)), write_fault (fs w) with
  | inl _, None => files (fs w') !! tmp = None
  | _, _ => files (fs w') = files (fs w)
  end.
Proof.
  rewrite mutate_spec. cbv zeta.
  destruct w as [[fl wf rf] o c u n t].
  unfold MetadataStore.saveLocked, os_WriteFile, os_Rename, os_Remove.
  cbn [MetadataStore.with_images MetadataStore.images MetadataStore.filePath].
  destruct (json_MarshalIndent (mutated op (MetadataStore.images s))) as [data|msg];
    [|by repeat split].
  destruct wf as [e|]; [by repeat split|].
  destruct rf as [e|]; cbn.
  - repeat split. apply lookup_delete_eq.
  - rewrite lookup_insert_eq. cbn. repeat split.
    rewrite lookup_insert_ne by (intros Heq; by apply (tmp_ne (MetadataStore.filePath s))).
    apply lookup_delete_eq.
Qed.




Lemma mutate_success_on_disk (op : Mutation) (s : MetadataStore.t) (w : World) :
  (mutate op s w).2 = None → on_disk (mutate op s w).1.1 (mutate op s w).1.2.
Proof.
  rewrite mutate_spec. cbv zeta. cbn [fst snd]. intros Hr.
  pose proof (saveLocked_spec
                (MetadataStore.with_images (mutated op (MetadataStore.images s)) s)
                (MetadataStore.Lock w)) as Hs.
  destruct (MetadataStore.saveLocked _ _) as [w1 r]. cbn [fst snd] in *. subst r.
  destruct Hs as (_ & data & Hm & Hlive & _). exists data. split; [exact Hm|].
  exact Hlive.
Qed.

Lemma run_mutations_fault_free (ops : list Mutation) (s : MetadataStore.t) (w : World) :
  write_fault (fs w) = None →
  rename_fault (fs w) = None →
  (∀ m, ∃ data, json_MarshalIndent m = inl data) →
  let '(s', w', rs) := run_mutations ops s w in
  Forall (λ r, r = None) rs ∧
  length rs = length ops ∧
  MetadataStore.images s' = foldl (λ m op, mutated op m) (MetadataStore.images s) ops ∧
  MetadataStore.filePath s' = MetadataStore.filePath s ∧
  (on_disk s w ∨ ops ≠ [] → on_disk s' w').
Proof.
  intros Hwf Hrf Hmarshal. revert s w Hwf Hrf.
  induction ops as [|op rest IH]; intros s w Hwf Hrf; cbn [run_mutations].
  - repeat split; [constructor | tauto].
  - pose proof (mutate_outcome op s w) as Ho.
    pose proof (mutate_success_on_disk op s w) as Hdisk.
    destruct (mutate op s w) as [[s1 w1] r]. cbv zeta in Ho.
    destruct Ho as (Himg & Hpath & Hwf1 & Hrf1 & _ & _ & _ & _ & Hr & _).
    destruct (Hmarshal (mutated op (MetadataStore.images s))) as [data Hdata].
    rewrite Hdata, Hwf, Hrf in Hr. subst r. specialize (Hdisk eq_refl).
    cbn [fst snd] in Hdisk.
    specialize (IH s1 w1 ltac:(congruence) ltac:(congruence)).
    destruct (run_mutations rest s1 w1) as [[s2 w2] rs].
    destruct IH as (Hall & Hlen & Himg2 & Hpath2 & Hdisk2).
    repeat split.
    + by constructor.
    + cbn. by rewrite Hlen.
    + cbn [foldl]. by rewrite Himg2, Himg.
    + congruence.
    + intros _. apply Hdisk2. left. exact Hdisk.
Qed.

(** X6.  In a world where writes and renames do not fail, with a table that
    can always be serialised, every mutation of any sequence reports
    success, the table in memory is the sequence applied to the initial
    table, and the file holds that table at the end. *)
Theorem fault_free_run (ops : list Mutation) (s : MetadataStore.t) (w : World) :
  write_fault (fs w) = None →
  rename_fault (fs w) = None →
  (∀ m, ∃ data, json_MarshalIndent m = inl data) →
  ops ≠ [] →
  let '(s', w', rs) := run_mutations ops s w in
  Forall (λ r, r = None) rs ∧
  length rs = length ops ∧
  MetadataStore.images s' = foldl (λ m op, mutated op m) (MetadataStore.images s) ops ∧
  on_disk s' w'.
Proof.
  intros Hwf Hrf Hmarshal Hne.
  pose proof (run_mutations_fault_free ops s w Hwf Hrf Hmarshal) as Hrun.
  destruct (run_mutations ops s w) as [[s' w'] rs].
  destruct Hrun as (Hall & Hlen & Himg & _ & Hdisk).
  repeat split; [exact Hall | exact Hlen | exact Himg | apply Hdisk; by right].
Qed.

(** X7.  Reload only reads.  When metadata.json is missing or cannot be
    read, Reload fails with the error of the read (a missing file is an
    error here, unlike at construction) and the table stays as it is; when
    the file can be read, its content is decoded into the table already in
    memory.  The file system is never changed. *)
Theorem Reload_reads_only (s : MetadataStore.t) (w : World) :
  let '(s', w', r) := MetadataStore.Reload s w in
  let path := MetadataStore.filePath s in
  fs w' = fs w ∧ objects w' = objects w ∧
  trace w' = trace w ++ [EvLock; EvReadFile path; EvUnlock] ∧
  match files (fs w) !! path with
  | None => s' = s ∧ r = Some (PathError "open" path ENOENT)
  | Some (Regular data) =>
      MetadataStore.images s' = (json_Unmarshal data (MetadataStore.images s)).1 ∧
      r = SyntaxError <$> (json_Unmarshal data (MetadataStore.images s)).2
  | Some _ => s' = s ∧ is_Some r
  end.
Proof.
  unfold MetadataStore.Reload, MetadataStore.loadLocked, os_ReadFile.
  cbn [MetadataStore.Lock emit fs].
  destruct (files (fs w) !! MetadataStore.filePath s) as [[data| |]|]; cbn.
  - destruct (json_Unmarshal data (MetadataStore.images s)) as [m e]. cbn.
    repeat split. by rewrite <- !app_assoc.
  - repeat split; [by rewrite <- !app_assoc | by eexists].
  - repeat split; [by rewrite <- !app_assoc | by eexists].
  - repeat split. by rewrite <- !app_assoc.
Qed.

(** ** Content sniffing *)

Lemma byte_is_take (h : bytes) (n i : nat) (b : Byte.byte) :
  (i < n)%nat → byte_is (take n h) i b = byte_is h i b.
Proof. intros Hi. unfold byte_is. by rewrite lookup_take_lt. Qed.

Lemma detect_take (h : bytes) (n : nat) :
  (12 <= n)%nat → detectMimeFromHeader (take n h) = detectMimeFromHeader h.
Proof.
  intros Hn. destruct (Nat.le_gt_cases (length h) n) as [Hle|Hgt].
  - by rewrite take_ge.
  - unfold detectMimeFromHeader.
    rewrite !byte_is_take by lia. rewrite length_take_le by lia.
    replace (n <? 4)%nat with false by (symmetry; apply Nat.ltb_ge; lia).
    replace (length h <? 4)%nat with false by (symmetry; apply Nat.ltb_ge; lia).
    replace (8 <=? n)%nat with true by (symmetry; apply Nat.leb_le; lia).
    replace (8 <=? length h)%nat with true by (symmetry; apply Nat.leb_le; lia).
    replace (12 <=? n)%nat with true by (symmetry; apply Nat.leb_le; lia).
    replace (12 <=? length h)%nat with true by (symmetry; apply Nat.leb_le; lia).
    reflexivity.
Qed.

(** X8.  The sniffer looks at the first twelve bytes only.  So
    DetectMimeType, which sniffs what one Read call delivered into a
    512-byte buffer, names the same type as Upload (which sniffs the whole
    upload) whenever that call delivered a prefix of the upload of at least
    twelve bytes, or all of it; it fails only on a read error other than
    EOF, and hands back the bytes it looked at. *)
Theorem DetectMimeType_agrees (data : bytes) (reader : ReadCall) :
  (∃ rest, data = delivered reader ++ rest) →
  (12 <= length (delivered reader))%nat ∨ delivered reader = data →
  match read_err reader with
  | Some (ReadFailure err) => DetectMimeType reader = inr err
  | _ =>
      DetectMimeType reader
      = inl (detectMimeFromHeader data, take 512 (delivered reader))
  end.
Proof.
  intros [rest ->] Hlen. unfold DetectMimeType, Read.
  assert (Hsame : detectMimeFromHeader (take 512 (delivered reader))
                  = detectMimeFromHeader (delivered reader ++ rest)).
  { destruct Hlen as [Hlen|Hall].
    - rewrite <- (detect_take (delivered reader ++ rest) 12) by lia.
      rewrite <- (detect_take (take 512 (delivered reader)) 12) by lia.
      rewrite take_take, take_app_le by lia. reflexivity.
    - rewrite <- Hall. apply detect_take. lia. }
  destruct (read_err reader) as [[|err]|]; by rewrite ?Hsame.
Qed.

Lemma take_eq_lookups {A} (sig h : list A) :
  take (length sig) h = sig ↔ ∀ i b, sig !! i = Some b → h !! i = Some b.
Proof.
  revert h. induction sig as [|x sig IH]; intros h; cbn [length take].
  - split; [intros _ i b Hi; inversion Hi | by destruct h].
  - destruct h as [|y t].
    + split; [discriminate|]. intros Hall. by specialize (Hall 0%nat x eq_refl).
    + split.
      * intros Heq. injection Heq as -> Heq.
        pose proof (proj1 (IH t) Heq) as Hall.
        intros [|i] b Hi; cbn in *; [exact Hi | by apply Hall].
      * intros Hall. pose proof (Hall 0%nat x eq_refl) as Hhead. cbn in Hhead.
        injection Hhead as ->. cbn. f_equal. apply IH. intros i b Hi.
        apply (Hall (S i) b Hi).
Qed.

Lemma magic3 (h : bytes) (a b c : Byte.byte) :
  byte_is h 0 a && byte_is h 1 b && byte_is h 2 c = bool_decide (take 3 h = [a; b; c]).
Proof.
  apply eq_true_iff_eq. unfold byte_is.
  rewrite !andb_true_iff, !bool_decide_eq_true.
  pose proof (take_eq_lookups [a; b; c] h) as R.
  cbn [length] in R. rewrite R. clear R. split.
  - intros [[Hb0 Hb1] Hb2] i x Hi.
    do 3 (destruct i as [|i]; [by simplify_eq/=|]). inversion Hi.
  - intros Hall. repeat split; by apply Hall.
Qed.

Lemma magic4 (h : bytes) (a b c d : Byte.byte) :
  byte_is h 0 a && byte_is h 1 b && byte_is h 2 c && byte_is h 3 d
  = bool_decide (take 4 h = [a; b; c; d]).
Proof.
  apply eq_true_iff_eq. unfold byte_is.
  rewrite !andb_true_iff, !bool_decide_eq_true.
  pose proof (take_eq_lookups [a; b; c; d] h) as R.
  cbn [length] in R. rewrite R. clear R. split.
  - intros [[[Hb0 Hb1] Hb2] Hb3] i x Hi.
    do 4 (destruct i as [|i]; [by simplify_eq/=|]). inversion Hi.
  - intros Hall. repeat split; by apply Hall.
Qed.

Lemma magic8 (h : bytes) (a b c d e f g i : Byte.byte) :
  byte_is h 0 a && byte_is h 1 b && byte_is h 2 c && byte_is h 3 d &&
  byte_is h 4 e && byte_is h 5 f && byte_is h 6 g && byte_is h 7 i
  = bool_decide (take 8 h = [a; b; c; d; e; f; g; i]).
Proof.
  apply eq_true_iff_eq. unfold byte_is.
  rewrite !andb_true_iff, !bool_decide_eq_true.
  pose proof (take_eq_lookups [a; b; c; d; e; f; g; i] h) as R.
  cbn [length] in R. rewrite R. clear R. split.
  - intros [[[[[[[Hb0 Hb1] Hb2] Hb3] Hb4] Hb5] Hb6] Hb7] k x Hk.
    do 8 (destruct k as [|k]; [by simplify_eq/=|]). inversion Hk.
  - intros Hall. repeat split; by apply Hall.
Qed.

Lemma magic_webp (h : bytes) (a b c d e f g i : Byte.byte) :
  byte_is h 0 a && byte_is h 1 b && byte_is h 2 c && byte_is h 3 d &&
  byte_is h 8 e && byte_is h 9 f && byte_is h 10 g && byte_is h 11 i
  = bool_decide (take 4 h = [a; b; c; d] ∧ take 4 (drop 8 h) = [e; f; g; i]).
Proof.
  apply eq_true_iff_eq. unfold byte_is.
  rewrite !andb_true_iff, !bool_decide_eq_true.
  pose proof (take_eq_lookups [a; b; c; d] h) as R1.
  pose proof (take_eq_lookups [e; f; g; i] (drop 8 h)) as R2.
  cbn [length] in R1, R2. rewrite R1, R2. clear R1 R2. split.
  - intros [[[[[[[Hb0 Hb1] Hb2] Hb3] Hb4] Hb5] Hb6] Hb7]. split; intros k x Hk.
    + do 4 (destruct k as [|k]; [by simplify_eq/=|]). inversion Hk.
    + rewrite lookup_drop.
      do 4 (destruct k as [|k]; [by simplify_eq/=|]). inversion Hk.
  - intros [Hriff Hwebp]. repeat split; try (by apply Hriff).
    + by rewrite <- (Hwebp 0%nat e eq_refl), lookup_drop.
    + by rewrite <- (Hwebp 1%nat f eq_refl), lookup_drop.
    + by rewrite <- (Hwebp 2%nat g eq_refl), lookup_drop.
    + by rewrite <- (Hwebp 3%nat i eq_refl), lookup_drop.
Qed.

(** X9.  Which inputs the sniffer recognises: JPEG is at least four bytes
    starting FF D8 FF; PNG is the eight-byte signature; WebP is RIFF in the
    first four bytes and WEBP in bytes eight to eleven; everything else,
    also a bare three-byte FF D8 FF, is application/octet-stream. *)
Theorem detect_by_magic (h : bytes) :
  detectMimeFromHeader h =
    if bool_decide ((4 <= length h)%nat ∧ take 3 h = jpeg_magic) then "image/jpeg"
    else if bool_decide (take 8 h = png_magic) then "image/png"
    else if bool_decide (take 4 h = riff_magic ∧ take 4 (drop 8 h) = webp_magic)
    then "image/webp"
    else "application/octet-stream".
Proof.
  unfold detectMimeFromHeader.
  rewrite magic3.
  assert (Hpng : ∀ n : bool,
    n && byte_is h 0 Byte.x89 && byte_is h 1 Byte.x50 && byte_is h 2 Byte.x4e &&
    byte_is h 3 Byte.x47 && byte_is h 4 Byte.x0d && byte_is h 5 Byte.x0a &&
    byte_is h 6 Byte.x1a && byte_is h 7 Byte.x0a
    = n && bool_decide (take 8 h = png_magic)).
  { intros [|]; cbn [andb]; [apply magic8 | reflexivity]. }
  assert (Hwebp : ∀ n : bool,
    n && byte_is h 0 Byte.x52 && byte_is h 1 Byte.x49 && byte_is h 2 Byte.x46 &&
    byte_is h 3 Byte.x46 && byte_is h 8 Byte.x57 && byte_is h 9 Byte.x45 &&
    byte_is h 10 Byte.x42 && byte_is h 11 Byte.x50
    = n && bool_decide (take 4 h = riff_magic ∧ take 4 (drop 8 h) = webp_magic)).
  { intros [|]; cbn [andb]; [apply magic_webp | reflexivity]. }
  rewrite Hpng, Hwebp. clear Hpng Hwebp.
  fold jpeg_magic.
  destruct (Nat.ltb_spec (length h) 4) as [Hshort|Hlong].
  - cbv iota.
    rewrite (bool_decide_eq_false_2 (_ ∧ take 3%nat h = _)) by (intros [? _]; lia).
    rewrite (bool_decide_eq_false_2 (take 8%nat h = png_magic)).
    2:{ intros Heq. apply (f_equal length) in Heq.
        rewrite length_take in Heq. cbn [png_magic length] in Heq. lia. }
    rewrite (bool_decide_eq_false_2 (_ ∧ _)); [reflexivity|].
    intros [_ Heq]. apply (f_equal length) in Heq.
    rewrite length_take, length_drop in Heq. cbn [webp_magic length] in Heq. lia.
  - cbv iota. case_bool_decide as Hj.
    + rewrite bool_decide_eq_true_2 by done. reflexivity.
    + rewrite (bool_decide_eq_false_2 (_ ∧ take 3%nat h = _)) by tauto.
      case_bool_decide as Hp.
      * replace (8 <=? length h)%nat with true; [reflexivity|].
        symmetry. apply Nat.leb_le. apply (f_equal length) in Hp.
        rewrite length_take in Hp. cbn [png_magic length] in Hp. lia.
      * rewrite andb_false_r.
        case_bool_decide as Hw; [|by rewrite andb_false_r].
        replace (12 <=? length h)%nat with true; [reflexivity|].
        symmetry. apply Nat.leb_le. destruct Hw as [_ Hw].
        apply (f_equal length) in Hw.
        rewrite length_take, length_drop in Hw. cbn [webp_magic length] in Hw. lia.
Qed.

(** ** The processor *)

Lemma decodeImage_supported (p : ImageProcessor) (data : bytes) (mimeType : string) :
  mimeType ∉ ["image/jpeg"; "image/png"; "image/webp"] →
  decodeImage p data mimeType
  = inr (errorString ("unsupported image type: " +:+ mimeType)).
Proof.
  intros Hnot. unfold decodeImage.
  destruct (String.eqb_spec mimeType "image/jpeg") as [->|_];
    [destruct Hnot; in_literal|].
  destruct (String.eqb_spec mimeType "image/png") as [->|_];
    [destruct Hnot; in_literal|].
  destruct (String.eqb_spec mimeType "image/webp") as [->|_];
    [destruct Hnot; in_literal|].
  reflexivity.
Qed.

(** X10.  What a successful Process returns, for a processor built by
    NewImageProcessor from any configured quality: the type was one of the
    three supported ones, the format is webp, the data is what the lossy
    encoder made of some image at a quality between 1 and 100 (the
    configured one when that lies in the range, 75 otherwise), and width and
    height are the bounds of that very image. *)
Theorem Process_success (q : Z) (data : bytes) (mimeType : string) (res : ProcessResult) :
  Process (NewImageProcessor q) data mimeType = inl res →
  mimeType ∈ ["image/jpeg"; "image/png"; "image/webp"] ∧
  pr_Format res = "webp" ∧
  ∃ img q',
    1 <= q' <= 100 ∧ (1 <= q <= 100 → q' = q) ∧ (¬ 1 <= q <= 100 → q' = 75) ∧
    webp_Encode img false q' = inl (pr_Data res) ∧
    pr_Width res = Bounds_Dx img ∧ pr_Height res = Bounds_Dy img.
Proof.
  intros Hp. split.
  - destruct (decide (mimeType ∈ ["image/jpeg"; "image/png"; "image/webp"]))
      as [Hin|Hnot]; [exact Hin|].
    unfold Process in Hp.
    rewrite (decodeImage_supported _ _ _ Hnot) in Hp. discriminate Hp.
  - unfold Process in Hp.
    destruct (decodeImage _ data mimeType) as [[img format]|err]; [|discriminate Hp].
    set (img' := if String.eqb format "jpeg" then _ else img) in Hp.
    unfold encodeWebP in Hp.
    destruct (webp_Encode img' false _) as [webpData|err] eqn:Henc; [|discriminate Hp].
    injection Hp as <-. split; [reflexivity|].
    exists img', (quality (NewImageProcessor q)). cbn [pr_Data pr_Width pr_Height].
    unfold NewImageProcessor in *.
    destruct (Z.ltb_spec q 1); destruct (Z.ltb_spec 100 q); cbn [orb quality] in *;
      repeat split; try lia; exact Henc.
Qed.

(** X11.  How Process fails.  A type other than the three supported ones is
    refused before any decoder runs, as a decode failure naming the type.
    A decoder error is returned wrapped as "failed to decode image"; once
    decoding succeeded the only possible failure is the encoder's, wrapped
    as "failed to encode webp".  The two kinds are told apart by these
    prefixes. *)
Theorem Process_failure (p : ImageProcessor) (data : bytes) (mimeType : string) :
  (mimeType ∉ ["image/jpeg"; "image/png"; "image/webp"] →
     Process p data mimeType
     = inr (wrapError ("failed to decode image: unsupported image type: " +:+ mimeType)
              (errorString ("unsupported image type: " +:+ mimeType)))) ∧
  match decodeImage p data mimeType with
  | inr cause =>
      Process p data mimeType
      = inr (wrapError ("failed to decode image: " +:+ Error cause) cause)
  | inl _ =>
      ∀ e, Process p data mimeType = inr e →
           ∃ cause, e = wrapError ("failed to encode webp: " +:+ Error cause) cause ∧
                    has_prefix "failed to decode image: " (Error e) = false
  end.
Proof.
  split.
  - intros Hnot. unfold Process. by rewrite (decodeImage_supported _ _ _ Hnot).
  - unfold Process.
    destruct (decodeImage p data mimeType) as [[img format]|cause]; [|reflexivity].
    intros e He. destruct (encodeWebP p _) as [d|cause]; [discriminate He|].
    injection He as <-. exists cause. split; reflexivity.
Qed.

(** ** Upload *)

Lemma Save_keeps (w : World) (path : string) (data : bytes) :
  uuids (Save w path data).1 = uuids w ∧
  uuid_next (Save w path data).1 = uuid_next w ∧
  clock (Save w path data).1 = clock w.
Proof. unfold Save. cbn. by destruct (storage_Save _ _ _). Qed.

Lemma Delete_keeps (w : World) (path : string) :
  uuids (Delete w path).1 = uuids w ∧
  uuid_next (Delete w path).1 = uuid_next w ∧
  clock (Delete w path).1 = clock w.
Proof. unfold Delete. cbn. by destruct (storage_Delete _ _). Qed.

Lemma mutate_success_trace (op : Mutation) (s : MetadataStore.t) (w : World) :
  (mutate op s w).2 = None →
  ∃ data,
    json_MarshalIndent (mutated op (MetadataStore.images s)) = inl data ∧
    trace (mutate op s w).1.2
    = trace w ++ [EvLock; EvWriteFile (MetadataStore.filePath s +:+ ".tmp") data;
                  EvRename (MetadataStore.filePath s +:+ ".tmp") (MetadataStore.filePath s);
                  EvUnlock].
Proof.
  rewrite mutate_spec. cbv zeta. cbn [fst snd]. intros Hr.
  pose proof (saveLocked_spec
                (MetadataStore.with_images (mutated op (MetadataStore.images s)) s)
                (MetadataStore.Lock w)) as Hs.
  destruct (MetadataStore.saveLocked _ _) as [w1 r]. cbn [fst snd] in *. subst r.
  destruct Hs as (_ & data & Hm & _ & Htr). exists data. split; [exact Hm|].
  cbn [MetadataStore.Unlock emit trace]. rewrite Htr. cbn.
  by rewrite <- !app_assoc.
Qed.

Lemma Upload_success_inv (s : ImageService) (w : World) (file : Reader) (originalSize : Z)
    (s' : ImageService) (w' : World) (res : UploadResult) :
  Upload s w file originalSize = (s', w', inl res) →
  ∃ data result url w2,
    io_ReadAll file = inl data ∧
    ValidateMimeType (detectMimeFromHeader data)
      (config.AllowedTypes (config.Image_ (config s))) = true ∧
    Z.of_nat (length data) <= config.MaxSize (config.Image_ (config s)) ∧
    Process (processor s) data (detectMimeFromHeader data) = inl result ∧
    Save (uuid_New w).1 (upload_key w) (pr_Data result) = (w2, inl url) ∧
    MetadataStore.Add (metadata s) w2 (upload_record w data originalSize result url)
    = (metadata s', w', None) ∧
    s' = with_metadata (metadata s') s ∧
    res = {| res_ID := uuids w (uuid_next w);
             res_URL := url;
             res_OriginalFormat := mimeTypeToFormat (detectMimeFromHeader data);
             res_OriginalSize := originalSize;
             res_ProcessedSize := Z.of_nat (length (pr_Data result));
             res_Width := pr_Width result;
             res_Height := pr_Height result;
             res_CreatedAt := time_Now w |}.
Proof.
  unfold Upload. intros Hup.
  destruct (io_ReadAll file) as [data|err] eqn:Hread; [|discriminate Hup].
  destruct (ValidateMimeType _ _) eqn:Hok; cbn [negb] in Hup; [|discriminate Hup].
  destruct (Z.ltb_spec (config.MaxSize (config.Image_ (config s)))
              (Z.of_nat (length data))) as [|Hsize]; [discriminate Hup|].
  destruct (Process _ _ _) as [result|err] eqn:Hproc; [|discriminate Hup].
  change (uuid_New w) with ((uuid_New w).1, uuids w (uuid_next w)) in Hup.
  cbv iota beta zeta in Hup.
  change (fmt_d (Year (time_Now w)) +:+ "/" +:+ fmt_02d (Month (time_Now w)) +:+ "/" +:+
          (uuids w (uuid_next w) +:+ ".webp")) with (upload_key w) in Hup.
  destruct (Save _ _ _) as [w2 [url|err]] eqn:Hsave; [|discriminate Hup].
  change {| ID := uuids w (uuid_next w); URL := url;
            OriginalFormat := mimeTypeToFormat (detectMimeFromHeader data);
            OriginalSize := originalSize;
            ProcessedSize := Z.of_nat (length (pr_Data result));
            Width := pr_Width result; Height := pr_Height result;
            CreatedAt := time_Now w;
            Filename := uuids w (uuid_next w) +:+ ".webp";
            StoragePath := upload_key w |}
    with (upload_record w data originalSize result url) in Hup.
  destruct (MetadataStore.Add _ _ _) as [[m w3] [err|]] eqn:Hadd.
  { destruct (Delete w3 _). discriminate Hup. }
  injection Hup as <- <- <-.
  exists data, result, url, w2. by repeat split.
Qed.

(** X12.  A successful Upload has stored what it reports: the record under
    the returned identifier is in the table with the returned URL, format,
    sizes, dimensions and time, GetImage returns it, the metadata file
    holds the new table, and on the way Upload made exactly one call to
    Storage.Save, under the key year/month/id.webp, followed by one rewrite
    of the metadata file, and no call to Storage.Delete. *)
Theorem Upload_success_stores (s : ImageService) (w : World) (file : Reader)
    (originalSize : Z) (s' : ImageService) (w' : World) (res : UploadResult) :
  Upload s w file originalSize = (s', w', inl res) →
  ∃ img content json,
    MetadataStore.images (metadata s')
    = <[res_ID res := img]> (MetadataStore.images (metadata s)) ∧
    (∀ w1, (GetImage s' w1 (res_ID res)).2 = inl img) ∧
    ID img = res_ID res ∧ URL img = res_URL res ∧
    OriginalFormat img = res_OriginalFormat res ∧
    OriginalSize img = originalSize ∧ res_OriginalSize res = originalSize ∧
    ProcessedSize img = res_ProcessedSize res ∧
    Width img = res_Width res ∧ Height img = res_Height res ∧
    CreatedAt img = res_CreatedAt res ∧
    StoragePath img = upload_key w ∧
    Filename img = res_ID res +:+ ".webp" ∧
    on_disk (metadata s') w' ∧
    trace w' = trace w ++
      [EvStorageSave (upload_key w) content; EvLock;
       EvWriteFile (MetadataStore.filePath (metadata s) +:+ ".tmp") json;
       EvRename (MetadataStore.filePath (metadata s) +:+ ".tmp")
         (MetadataStore.filePath (metadata s));
       EvUnlock].
Proof.
  intros Hup.
  destruct (Upload_success_inv _ _ _ _ _ _ _ Hup)
    as (data & result & url & w2 & _ & _ & _ & _ & Hsave & Hadd & _ & ->).
  set (img := upload_record w data originalSize result url) in *.
  pose proof (mutate_spec (MAdd img) (metadata s) w2) as Hm.
  pose proof (mutate_success_on_disk (MAdd img) (metadata s) w2) as Hdisk.
  destruct (mutate_success_trace (MAdd img) (metadata s) w2) as (json & _ & Htr).
  { cbn [mutate]. by rewrite Hadd. }
  cbn [mutate mutated] in Hm, Hdisk, Htr. rewrite Hadd in Hm, Hdisk, Htr.
  cbn [fst snd] in Hdisk, Htr. cbv zeta in Hm. injection Hm as Hs' _ _.
  exists img, (pr_Data result), json. cbn [res_ID res_URL res_OriginalFormat
    res_OriginalSize res_ProcessedSize res_Width res_Height res_CreatedAt].
  assert (Himg : MetadataStore.images (metadata s')
                 = <[uuids w (uuid_next w) := img]> (MetadataStore.images (metadata s))).
  { rewrite Hs'. reflexivity. }
  split; [exact Himg|]. split.
  { intros w1. unfold GetImage, MetadataStore.Get. rewrite Himg, lookup_insert_eq.
    reflexivity. }
  do 11 (split; [reflexivity|]).
  split; [by apply Hdisk|].
  rewrite Htr.
  pose proof (Save_spec (uuid_New w).1 (upload_key w) (pr_Data result)) as [Htr2 _].
  rewrite Hsave in Htr2. cbn [fst] in Htr2. rewrite Htr2. cbn [uuid_New fst trace].
  by rewrite <- app_assoc.
Qed.

Lemma detect_values (header : bytes) :
  detectMimeFromHeader header ∈
    ["application/octet-stream"; "image/jpeg"; "image/png"; "image/webp"].
Proof.
  unfold detectMimeFromHeader.
  repeat match goal with
         | |- context [if ?b then _ else _] => destruct b
         end; in_literal.
Qed.

(** X13.  A successful Upload implies a valid input: the stream could be
    read, the sniffed type is on the allow-list and is one of JPEG, PNG and
    WebP (so the recorded original format is jpeg, png or webp, never
    "unknown"), and the upload is not longer than the configured maximum.
    The reported original size is the size the caller declared, whatever
    the length of the stream. *)
Theorem Upload_success_means_valid (s : ImageService) (w : World) (file : Reader)
    (originalSize : Z) (s' : ImageService) (w' : World) (res : UploadResult) :
  Upload s w file originalSize = (s', w', inl res) →
  ∃ data,
    io_ReadAll file = inl data ∧
    detectMimeFromHeader data ∈ config.AllowedTypes (config.Image_ (config s)) ∧
    detectMimeFromHeader data ∈ ["image/jpeg"; "image/png"; "image/webp"] ∧
    res_OriginalFormat res ∈ ["jpeg"; "png"; "webp"] ∧
    Z.of_nat (length data) <= config.MaxSize (config.Image_ (config s)) ∧
    res_OriginalSize res = originalSize.
Proof.
  intros Hup.
  destruct (Upload_success_inv _ _ _ _ _ _ _ Hup)
    as (data & result & url & w2 & Hread & Hok & Hsize & Hproc & _ & _ & _ & ->).
  exists data. split; [exact Hread|]. split; [by apply ValidateMimeType_elem|].
  assert (Hmime : detectMimeFromHeader data ∈ ["image/jpeg"; "image/png"; "image/webp"]).
  { destruct (decide (detectMimeFromHeader data
                      ∈ ["image/jpeg"; "image/png"; "image/webp"])) as [Hin|Hnot];
      [exact Hin|].
    unfold Process in Hproc.
    rewrite (decodeImage_supported _ _ _ Hnot) in Hproc. discriminate Hproc. }
  split; [exact Hmime|]. split; [|split; [exact Hsize | reflexivity]].
  cbn [res_OriginalFormat].
  apply elem_of_cons in Hmime as [->|Hmime]; [cbn; in_literal|].
  apply elem_of_cons in Hmime as [->|Hmime]; [cbn; in_literal|].
  apply list_elem_of_singleton in Hmime as ->. cbn. in_literal.
Qed.

(** ** Keys *)

Lemma string_app_assoc (a b c : string) : (a +:+ b) +:+ c = a +:+ (b +:+ c).
Proof.
  induction a as [|x a IH]; [reflexivity|].
  change (String x ((a +:+ b) +:+ c) = String x (a +:+ (b +:+ c))). by rewrite IH.
Qed.

Lemma list_ascii_app (a b : string) :
  String.list_ascii_of_string (a +:+ b)
  = String.list_ascii_of_string a ++ String.list_ascii_of_string b.
Proof.
  induction a as [|x a IH]; [reflexivity|].
  change (x :: String.list_ascii_of_string (a +:+ b)
          = x :: (String.list_ascii_of_string a ++ String.list_ascii_of_string b)).
  by rewrite IH.
Qed.

Lemma Ext_webp (stem : string) : filepath_Ext (stem +:+ ".webp") = ".webp".
Proof.
  unfold filepath_Ext. rewrite list_ascii_app, reverse_app. reflexivity.
Qed.

Lemma app_not_empty (a b : string) : b ≠ "" → a +:+ b ≠ "".
Proof. intros Hb. destruct a; [exact Hb | discriminate]. Qed.


Lemma upload_key_stem (w : World) :
  upload_key w
  = (fmt_d (Year (time_Now w)) +:+ "/" +:+ fmt_02d (Month (time_Now w)) +:+ "/" +:+
     uuids w (uuid_next w)) +:+ ".webp".
Proof. unfold upload_key. by rewrite !string_app_assoc. Qed.


Lemma has_prefix_app (p rest : string) : has_prefix p (p +:+ rest) = true.
Proof.
  induction p as [|c p IH]; [reflexivity|].
  change (has_prefix (String c p) (String c (p +:+ rest)) = true).
  cbn [has_prefix]. by rewrite Ascii.eqb_refl.
Qed.

Lemma string_drop_app (p rest : string) : string_drop (String.length p) (p +:+ rest) = rest.
Proof. induction p as [|c p IH]; [reflexivity | exact IH]. Qed.

Lemma string_length_app (a b : string) :
  String.length (a +:+ b) = (String.length a + String.length b)%nat.
Proof.
  induction a as [|c a IH]; [reflexivity|].
  change (S (String.length (a +:+ b)) = S (String.length a + String.length b)).
  by rewrite IH.
Qed.

(** X15.  How DeleteImage finds the key.  A record with a stored path uses
    that path.  A record without one (as every record is after a restart,
    the path not being part of the JSON) uses its URL: from "/images/" +
    key it recovers key; from a URL that does not start with "/images/", or
    is nothing but that prefix, it gets the empty key. *)
Theorem resolveStoragePath_cases (img : Image) :
  (StoragePath img ≠ "" → resolveStoragePath img = StoragePath img) ∧
  (StoragePath img = "" →
     (∀ key, key ≠ "" → URL img = "/images/" +:+ key → resolveStoragePath img = key) ∧
     (has_prefix "/images/" (URL img) = false → resolveStoragePath img = "") ∧
     (URL img = "/images/" → resolveStoragePath img = "")).
Proof.
  unfold resolveStoragePath. split.
  - intros Hne. by destruct (String.eqb_spec (StoragePath img) "").
  - intros ->. cbn [String.eqb]. split; [|split].
    + intros key Hkey ->.
      assert (Hlen : (String.length "/images/" <? String.length ("/images/" +:+ key))%nat
                     = true).
      { rewrite string_length_app. apply Nat.ltb_lt.
        destruct key; [done | cbn; lia]. }
      rewrite Hlen, has_prefix_app. cbn [negb andb String.eqb Ascii.eqb].
      apply (string_drop_app "/images/").
    + intros Hpre. rewrite Hpre, andb_false_r. by destruct (negb _).
    + intros ->. reflexivity.
Qed.

(** ** Upload: what a failure leaves behind *)

Lemma Upload_failure_frame (s : ImageService) (w : World) (file : Reader)
    (originalSize : Z) (s' : ImageService) (w' : World) (e : error) :
  Upload s w file originalSize = (s', w', inr e) →
  kind_of_message (Error e) ≠ Some MetadataFailed →
  s' = s ∧ fs w' = fs w ∧
  (kind_of_message (Error e) ≠ Some StorageFailed → w' = w) ∧
  (kind_of_message (Error e) = Some StorageFailed →
     ∃ content, trace w' = trace w ++ [EvStorageSave (upload_key w) content]).
Proof.
  unfold Upload. intros Hup Hkind.
  destruct (io_ReadAll file) as [data|err].
  2:{ injection Hup as <- <- <-. repeat split. intros Hk. discriminate Hk. }
  destruct (negb (ValidateMimeType _ _)).
  { injection Hup as <- <- <-. repeat split. intros Hk. discriminate Hk. }
  destruct (_ <? _).
  { injection Hup as <- <- <-. repeat split. intros Hk. discriminate Hk. }
  destruct (Process _ _ _) as [result|err].
  2:{ injection Hup as <- <- <-. repeat split. intros Hk. discriminate Hk. }
  change (uuid_New w) with ((uuid_New w).1, uuids w (uuid_next w)) in Hup.
  cbv iota beta zeta in Hup.
  change (fmt_d (Year (time_Now w)) +:+ "/" +:+ fmt_02d (Month (time_Now w)) +:+ "/" +:+
          (uuids w (uuid_next w) +:+ ".webp")) with (upload_key w) in Hup.
  pose proof (Save_spec (uuid_New w).1 (upload_key w) (pr_Data result)) as [Htr Hfs].
  destruct (Save _ _ _) as [w2 [url|err]].
  - destruct (MetadataStore.Add _ _ _) as [[m w3] [err|]]; [|discriminate Hup].
    destruct (Delete w3 _) as [w4 r]. injection Hup as <- <- <-.
    by destruct Hkind.
  - injection Hup as <- <- <-. cbn [fst] in *.
    split; [reflexivity|]. split; [exact Hfs|]. split.
    + intros Hk. by destruct Hk.
    + intros _. exists (pr_Data result). exact Htr.
Qed.


(** X16.  Every failed Upload other than the metadata failure leaves the
    table and the file system exactly as they were; a failure before the
    storage step (unreadable stream, type, size, processing) leaves the
    whole world untouched, the storage failure changes nothing but what
    the backend itself did during Save. *)
Theorem Upload_failure_changes_nothing (s : ImageService) (w : World) (file : Reader)
    (originalSize : Z) (s' : ImageService) (w' : World) (e : error) :
  Upload s w file originalSize = (s', w', inr e) →
  kind_of_message (Error e) ≠ Some MetadataFailed →
  s' = s ∧ fs w' = fs w ∧
  (kind_of_message (Error e) ≠ Some StorageFailed → w' = w) ∧
  (kind_of_message (Error e) = Some StorageFailed →
     ∃ content, trace w' = trace w ++ [EvStorageSave (upload_key w) content]).
Proof. apply Upload_failure_frame. Qed.

(** ** Identifiers *)

Lemma Upload_world (s : ImageService) (w : World) (file : Reader) (originalSize : Z) :
  let '(_, w', _) := Upload s w file originalSize in
  uuids w' = uuids w ∧ clock w' = clock w ∧
  (uuid_next w' = uuid_next w ∨ uuid_next w' = S (uuid_next w)).
Proof.
  unfold Upload.
  destruct (io_ReadAll file) as [data|err]; [|by repeat split; left].
  destruct (negb (ValidateMimeType _ _)); [by repeat split; left|].
  destruct (_ <? _); [by repeat split; left|].
  destruct (Process _ _ _) as [result|err]; [|by repeat split; left].
  change (uuid_New w) with ((uuid_New w).1, uuids w (uuid_next w)).
  cbv iota beta zeta.
  set (key := fmt_d _ +:+ _).
  pose proof (Save_keeps (uuid_New w).1 key (pr_Data result)) as (Hu & Hn & Hc).
  destruct (Save _ _ _) as [w2 [url|err]]; cbn [fst] in *.
  2:{ rewrite Hu, Hn, Hc. repeat split. by right. }
  match goal with
  | |- context [MetadataStore.Add ?m ?w ?i] =>
      pose proof (mutate_outcome (MAdd i) m w) as Ho; cbn [mutate] in Ho;
      destruct (MetadataStore.Add m w i) as [[m' w3] r]
  end.
  cbv zeta in Ho. destruct Ho as (_ & _ & _ & _ & Hu3 & Hn3 & Hc3 & _).
  destruct r as [err|].
  - pose proof (Delete_keeps w3 key) as (Hu4 & Hn4 & Hc4).
    destruct (Delete w3 key) as [w4 r4]. cbn [fst] in *.
    rewrite Hu4, Hn4, Hc4, Hu3, Hn3, Hc3, Hu, Hn, Hc. repeat split. by right.
  - rewrite Hu3, Hn3, Hc3, Hu, Hn, Hc. repeat split. by right.
Qed.

(** X17.  Identifiers are never reused.  If the identifier source never
    repeats itself and every identifier in the table was issued by it, then
    a successful Upload files its record under an identifier that was not
    in the table: no record is overwritten, every earlier record is still
    there, and the count grows by exactly one.  The table keeps consisting
    of issued identifiers after any Upload, successful or not. *)
Theorem Upload_never_overwrites (s : ImageService) (w : World) (file : Reader)
    (originalSize : Z) :
  Inj (=) (=) (uuids w) →
  ids_issued (metadata s) w →
  let '(s', w', r) := Upload s w file originalSize in
  ids_issued (metadata s') w' ∧ uuids w' = uuids w ∧
  ∀ res, r = inl res →
    MetadataStore.images (metadata s) !! res_ID res = None ∧
    (∀ id img, MetadataStore.images (metadata s) !! id = Some img →
               MetadataStore.images (metadata s') !! id = Some img) ∧
    ∀ w1, (MetadataStore.Count (metadata s') w1).2
          = (MetadataStore.Count (metadata s) w1).2 + 1.
Proof.
  intros Hinj Hissued.
  pose proof (Upload_world s w file originalSize) as Hw.
  destruct (Upload s w file originalSize) as [[s' w'] r] eqn:Hup.
  destruct Hw as (Hu & _ & Hn).
  assert (Hfresh : MetadataStore.images (metadata s) !! uuids w (uuid_next w) = None).
  { destruct (MetadataStore.images (metadata s) !! uuids w (uuid_next w)) eqn:Hl;
      [|reflexivity].
    destruct (Hissued (uuids w (uuid_next w))) as (n & Hlt & Heq); [by eexists|].
    apply Hinj in Heq. lia. }
  assert (Htable : MetadataStore.images (metadata s') = MetadataStore.images (metadata s)
                   ∨ (uuid_next w' = S (uuid_next w) ∧
                      ∃ img, MetadataStore.images (metadata s')
                             = <[uuids w (uuid_next w) := img]>
                                 (MetadataStore.images (metadata s)))).
  { destruct r as [res|e].
    - destruct (Upload_success_inv _ _ _ _ _ _ _ Hup)
        as (data & result & url & w2 & _ & _ & _ & _ & Hsave & Hadd & _ & _).
      right. split.
      + pose proof (Save_keeps (uuid_New w).1 (upload_key w) (pr_Data result))
          as (_ & Hn2 & _).
        rewrite Hsave in Hn2. cbn [fst uuid_New uuid_next] in Hn2.
        pose proof (mutate_outcome
                      (MAdd (upload_record w data originalSize result url))
                      (metadata s) w2) as Ho.
        cbn [mutate] in Ho. rewrite Hadd in Ho. cbv zeta in Ho.
        destruct Ho as (_ & _ & _ & _ & _ & Hn3 & _). congruence.
      + eexists.
        pose proof (mutate_spec (MAdd (upload_record w data originalSize result url))
                      (metadata s) w2) as Hm.
        cbn [mutate mutated] in Hm. rewrite Hadd in Hm. cbv zeta in Hm.
        injection Hm as -> _ _. reflexivity.
    - assert (Hdec : kind_of_message (Error e) = Some MetadataFailed
                     ∨ kind_of_message (Error e) ≠ Some MetadataFailed)
        by (destruct (kind_of_message (Error e)) as [[]|]; (by left) || (by right)).
      destruct Hdec as [Hk|Hk].
      + revert Hup. unfold Upload.
        destruct (io_ReadAll file) as [data|err];
          [|intros Hup; injection Hup as <- <- <-; discriminate Hk].
        destruct (negb (ValidateMimeType _ _));
          [intros Hup; injection Hup as <- <- <-; discriminate Hk|].
        destruct (_ <? _); [intros Hup; injection Hup as <- <- <-; discriminate Hk|].
        destruct (Process _ _ _) as [result|err];
          [|intros Hup; injection Hup as <- <- <-; discriminate Hk].
        change (uuid_New w) with ((uuid_New w).1, uuids w (uuid_next w)).
        cbv iota beta zeta.
        set (key := fmt_d _ +:+ _).
        pose proof (Save_keeps (uuid_New w).1 key (pr_Data result)) as (_ & Hn2 & _).
        destruct (Save _ _ _) as [w2 [url|err]];
          [|intros Hup; injection Hup as <- <- <-; discriminate Hk].
        match goal with
        | |- context [MetadataStore.Add ?m ?w ?i] =>
            pose proof (mutate_outcome (MAdd i) m w) as Ho;
            pose proof (mutate_spec (MAdd i) m w) as Hm;
            cbn [mutate mutated] in Ho, Hm;
            destruct (MetadataStore.Add m w i) as [[m' w3] r]
        end.
        cbv zeta in Ho, Hm. destruct Ho as (_ & _ & _ & _ & _ & Hn3 & _).
        destruct r as [err|]; [|discriminate].
        pose proof (Delete_keeps w3 key) as (_ & Hn4 & _).
        destruct (Delete w3 key) as [w4 r4]. intros Hup. injection Hup as <- <- <-.
        cbn [fst uuid_New uuid_next] in *. right. split; [congruence|].
        eexists. injection Hm as -> _ _. reflexivity.
      + destruct (Upload_failure_frame _ _ _ _ _ _ _ Hup Hk) as (-> & _).
        by left. }
  split; [|split; [exact Hu|]].
  - intros id Hid. destruct Htable as [Hsame|(Hnext & img & Hins)].
    + rewrite Hsame in Hid. destruct (Hissued id Hid) as (n & Hlt & Heq).
      exists n. rewrite Hu. split; [|exact Heq]. destruct Hn; lia.
    + rewrite Hins in Hid. rewrite Hu, Hnext.
      destruct (decide (id = uuids w (uuid_next w))) as [->|Hne].
      * exists (uuid_next w). split; [lia | reflexivity].
      * rewrite lookup_insert_ne in Hid by done.
        destruct (Hissued id Hid) as (n & Hlt & Heq). exists n. split; [lia | exact Heq].
  - intros res ->.
    destruct (Upload_success_inv _ _ _ _ _ _ _ Hup)
      as (data & result & url & w2 & _ & _ & _ & _ & _ & _ & _ & ->).
    cbn [res_ID]. split; [exact Hfresh|].
    destruct Htable as [Hsame|(_ & img & Hins)].
    + exfalso.
      destruct (Upload_success_inv _ _ _ _ _ _ _ Hup)
        as (d & rs & u & w2' & _ & _ & _ & _ & _ & Hadd & _ & _).
      pose proof (mutate_spec (MAdd (upload_record w d originalSize rs u))
                    (metadata s) w2') as Hm.
      cbn [mutate mutated] in Hm. rewrite Hadd in Hm. cbv zeta in Hm.
      injection Hm as Hm _ _. rewrite Hm in Hsame.
      cbn [MetadataStore.with_images MetadataStore.images] in Hsame.
      assert (Hl : MetadataStore.images (metadata s) !! uuids w (uuid_next w)
                   = Some (upload_record w d originalSize rs u)).
      { rewrite <- Hsame. apply lookup_insert_eq. }
      congruence.
    + split.
      * intros id im Hid. rewrite Hins, lookup_insert_ne; [exact Hid|].
        intros <-. congruence.
      * intros w1. cbn [MetadataStore.Count snd]. rewrite Hins.
        rewrite map_size_insert_None by exact Hfresh. lia.
Qed.

(** ** GetImage and DeleteImage *)

(** X18.  Asked for an identifier that is not in the table, GetImage and
    DeleteImage both answer "image not found: " followed by the identifier,
    and neither touches the table, the files or the storage backend. *)
Theorem missing_image (s : ImageService) (w : World) (id : string) :
  MetadataStore.images (metadata s) !! id = None →
  let notFound := errorString ("image not found: " +:+ id) in
  (GetImage s w id).2 = inr notFound ∧
  (DeleteImage s w id).2 = Some notFound ∧
  (DeleteImage s w id).1.1 = s ∧
  fs (DeleteImage s w id).1.2 = fs w ∧
  objects (DeleteImage s w id).1.2 = objects w ∧
  trace (DeleteImage s w id).1.2 = trace w ++ [EvLock; EvUnlock].
Proof.
  intros Hnone. unfold GetImage, DeleteImage, MetadataStore.Get. rewrite Hnone.
  cbn. repeat split. by rewrite <- app_assoc.
Qed.

Lemma DeleteImage_success_inv (s s' : ImageService) (w w' : World) (id : string) :
  DeleteImage s w id = (s', w', None) →
  ∃ w1, is_Some (MetadataStore.images (metadata s) !! id) ∧
        mutate (MDelete id) (metadata s) w1 = (metadata s', w', None) ∧
        s' = with_metadata (metadata s') s.
Proof.
  unfold DeleteImage, MetadataStore.Get. intros Hdel.
  destruct (MetadataStore.images (metadata s) !! id) as [img|]; [|discriminate Hdel].
  assert (Hmeta : ∀ w1,
    match MetadataStore.Delete (metadata s) w1 id with
    | (m, w, Some err) =>
        (with_metadata m s, w, Some (fmt_Errorf_w "failed to delete metadata: " err))
    | (m, w, None) => (with_metadata m s, w, None)
    end = (s', w', None) →
    ∃ w1, is_Some (Some img) ∧
          mutate (MDelete id) (metadata s) w1 = (metadata s', w', None) ∧
          s' = with_metadata (metadata s') s).
  { intros w1 Hd. exists w1. split; [by eexists|]. cbn [mutate].
    destruct (MetadataStore.Delete (metadata s) w1 id) as [[m w2] [err|]];
      [discriminate Hd|].
    injection Hd as <- <-. by split. }
  destruct (_ || _ || _); [by eapply Hmeta|].
  destruct (Delete _ _) as [w2 [err|]]; [|by eapply Hmeta].
  destruct (negb (os_IsNotExist err)); [discriminate Hdel | by eapply Hmeta].
Qed.

(** X19.  When DeleteImage reports success the image is gone: it was in the
    table before, the table afterwards is the old one without it, the
    metadata file holds that table, GetImage no longer finds the
    identifier, and the count is one less. *)
Theorem DeleteImage_success_removes (s s' : ImageService) (w w' : World) (id : string) :
  DeleteImage s w id = (s', w', None) →
  is_Some (MetadataStore.images (metadata s) !! id) ∧
  MetadataStore.images (metadata s') = delete id (MetadataStore.images (metadata s)) ∧
  on_disk (metadata s') w' ∧
  (∀ w1, (GetImage s' w1 id).2 = inr (errorString ("image not found: " +:+ id))) ∧
  (∀ w1, (MetadataStore.Count (metadata s') w1).2
         = (MetadataStore.Count (metadata s) w1).2 - 1).
Proof.
  intros Hdel.
  destruct (DeleteImage_success_inv _ _ _ _ _ Hdel) as (w1 & Hin & Hmut & _).
  pose proof (mutate_spec (MDelete id) (metadata s) w1) as Hm.
  pose proof (mutate_success_on_disk (MDelete id) (metadata s) w1) as Hdisk.
  rewrite Hmut in Hm, Hdisk. cbv zeta in Hm. cbn [fst snd mutated] in Hm, Hdisk.
  assert (Himg : MetadataStore.images (metadata s')
                 = delete id (MetadataStore.images (metadata s))).
  { injection Hm as -> _ _. reflexivity. }
  split; [exact Hin|]. split; [exact Himg|]. split; [by apply Hdisk|]. split.
  - intros w2. unfold GetImage, MetadataStore.Get. by rewrite Himg, lookup_delete_eq.
  - intros w2. cbn [MetadataStore.Count snd]. rewrite Himg, map_size_delete_Some by done.
    assert (size (MetadataStore.images (metadata s)) ≠ 0%nat); [|lia].
    intros Hz. apply map_size_empty_inv in Hz. rewrite Hz in Hin.
    rewrite lookup_empty in Hin. by destruct Hin.
Qed.

(** ** ListImages: where a record shows up *)


(** ** The handler's substring search *)

Lemma has_prefix_spec (p s : string) :
  has_prefix p s = true ↔ ∃ post, s = p +:+ post.
Proof.
  revert s. induction p as [|c p IH]; intros s.
  - split; [intros _; by exists s | reflexivity].
  - destruct s as [|d s]; cbn [has_prefix].
    + split; [discriminate | intros [post Hpost]; discriminate Hpost].
    + destruct (Ascii.eqb_spec c d) as [->|Hne].
      * rewrite IH. split; intros [post Hpost]; exists post.
        -- by rewrite Hpost.
        -- by injection Hpost.
      * split; [discriminate|]. intros [post Hpost]. injection Hpost as Hc _. done.
Qed.

Lemma has_prefix_length (p s : string) :
  has_prefix p s = true → (String.length p <= String.length s)%nat.
Proof.
  rewrite has_prefix_spec. intros [post ->]. rewrite string_length_app. lia.
Qed.

Lemma occurs_unfold (sub s : string) :
  occurs sub s
  = has_prefix sub s ||
    match s with
    | String _ rest => occurs sub rest
    | EmptyString => false
    end.
Proof. by destruct s. Qed.

Lemma occurs_short (sub s : string) :
  (String.length s < String.length sub)%nat → occurs sub s = false.
Proof.
  induction s as [|c s IH]; intros Hlen; rewrite occurs_unfold.
  - destruct (has_prefix sub "") eqn:Hp; [|reflexivity].
    apply has_prefix_length in Hp. lia.
  - destruct (has_prefix sub (String c s)) eqn:Hp.
    + apply has_prefix_length in Hp. lia.
    + cbn [orb]. apply IH. cbn [String.length] in Hlen. lia.
Qed.

Lemma containsImpl_from_occurs (sub s : string) (n : nat) :
  (String.length s + 1 <= n + String.length sub)%nat →
  handler.containsImpl_from n s sub = occurs sub s.
Proof.
  revert s. induction n as [|n IH]; intros s Hn.
  - cbn [handler.containsImpl_from]. symmetry. apply occurs_short. lia.
  - cbn [handler.containsImpl_from]. rewrite occurs_unfold.
    destruct (has_prefix sub s); [reflexivity|]. cbn [orb].
    destruct s as [|c s]; [reflexivity|]. apply IH.
    cbn [String.length] in Hn. lia.
Qed.

Lemma contains_occurs (s sub : string) : handler.contains s sub = occurs sub s.
Proof.
  unfold handler.contains, handler.containsImpl.
  destruct (Nat.leb_spec (String.length sub) (String.length s)) as [Hle|Hgt].
  2:{ cbn [andb]. symmetry. by apply occurs_short. }
  cbn [andb].
  destruct (String.eqb_spec s sub) as [->|Hne].
  { cbn [orb]. rewrite occurs_unfold.
    assert (has_prefix sub sub = true) as ->; [|reflexivity].
    apply has_prefix_spec. exists "". by rewrite app_empty_r. }
  cbn [orb].
  destruct (Nat.ltb_spec 0 (String.length s)) as [Hpos|Hzero].
  - cbn [andb].
    destruct (Z.ltb_spec (Z.of_nat (String.length s) - Z.of_nat (String.length sub)) 0)
      as [Hneg|_]; [lia|].
    apply containsImpl_from_occurs. lia.
  - destruct s; [|cbn [String.length] in Hzero; lia].
    destruct sub; [done | cbn [String.length] in Hle; lia].
Qed.

Lemma occurs_spec (sub s : string) :
  occurs sub s = true ↔ ∃ pre post, s = pre +:+ sub +:+ post.
Proof.
  split.
  - induction s as [|c s IH]; rewrite occurs_unfold, orb_true_iff.
    + intros [Hp|Hf]; [|discriminate Hf].
      apply has_prefix_spec in Hp as [post Hpost]. by exists "", post.
    + intros [Hp|Hrest].
      * apply has_prefix_spec in Hp as [post Hpost]. by exists "", post.
      * destruct (IH Hrest) as (pre & post & ->). by exists (String c pre), post.
  - intros (pre & post & ->). induction pre as [|c pre IH]; rewrite occurs_unfold.
    + assert (has_prefix sub ("" +:+ sub +:+ post) = true) as ->; [|reflexivity].
      apply has_prefix_spec. by exists post.
    + change (String c pre +:+ sub +:+ post) with (String c (pre +:+ sub +:+ post)).
      cbv iota. rewrite IH. apply orb_true_r.
Qed.

(** X21.  The handler's own substring search is a correct one: contains
    answers true exactly when the second string occurs somewhere in the
    first (the empty string occurs in every string). *)
Theorem contains_correct (s substr : string) :
  handler.contains s substr = true ↔ ∃ pre post, s = pre +:+ substr +:+ post.
Proof. rewrite contains_occurs. apply occurs_spec. Qed.

(** ** How the handler answers the errors of the service *)

Lemma has_char_app (c : ascii) (a b : string) :
  has_char c (a +:+ b) = has_char c a || has_char c b.
Proof.
  induction a as [|d a IH]; [reflexivity|].
  change (Ascii.eqb c d || has_char c (a +:+ b)
          = Ascii.eqb c d || has_char c a || has_char c b).
  by rewrite IH, orb_assoc.
Qed.

Lemma occurs_has_char (sub s : string) (c : ascii) :
  occurs sub s = true → has_char c sub = true → has_char c s = true.
Proof.
  rewrite occurs_spec. intros (pre & post & ->) Hc.
  rewrite !has_char_app, Hc. by rewrite orb_true_r.
Qed.

Lemma has_char_pretty_N_go (c : ascii) (x : N) (s : string) :
  (∀ d, (d < 10)%N → Ascii.eqb c (pretty_N_char d) = false) →
  has_char c (pretty_N_go x s) = has_char c s.
Proof.
  intros Hc. revert s. induction (N.lt_wf_0 x) as [x _ IH]; intros s.
  assert (x = 0 ∨ 0 < x)%N as [->|Hpos] by lia.
  - by rewrite pretty_N_go_0.
  - rewrite pretty_N_go_step by done. rewrite IH by (by apply N.div_lt).
    cbn [has_char]. rewrite Hc; [reflexivity|]. by apply N.mod_lt.
Qed.

Lemma v_is_no_digit (d : N) : Ascii.eqb "v" (pretty_N_char d) = false.
Proof. unfold pretty_N_char. by repeat case_match. Qed.

Lemma no_v_in_fmt_d (n : Z) : has_char "v" (fmt_d n) = false.
Proof.
  assert (HN : ∀ x : N, has_char "v" (pretty x) = false).
  { intros x. unfold pretty, pretty_N. case_decide; [reflexivity|].
    rewrite has_char_pretty_N_go; [reflexivity|]. intros d _. apply v_is_no_digit. }
  unfold fmt_d, pretty, pretty_Z. destruct n as [|p|p].
  - reflexivity.
  - apply (HN (Npos p)).
  - change (has_char "v" (pretty (Npos p)) = false). apply HN.
Qed.

(** X22.  The two validation failures of Upload reach the client as they
    are meant to: for every upload whose sniffed type is not allowed the
    upload endpoint answers 400 with code 1001, and for every allowed
    upload over the size limit 400 with code 1002, whatever the type name
    and the two sizes in the message are; the service and the world are
    unchanged. *)
Theorem Upload_endpoint_validation (s : ImageService) (w : World) (file : Reader)
    (size : Z) (data : bytes) :
  io_ReadAll file = inl data →
  let mimeType := detectMimeFromHeader data in
  let cfg := config.Image_ (config s) in
  (ValidateMimeType mimeType (config.AllowedTypes cfg) = false →
     ImageHandler.Upload s w (inl (file, size))
     = (s, w, (400, NewErrorResponse CodeInvalidFileType
                      ("invalid file type: " +:+ mimeType))))
  ∧ (ValidateMimeType mimeType (config.AllowedTypes cfg) = true →
     config.MaxSize cfg < Z.of_nat (length data) →
     ImageHandler.Upload s w (inl (file, size))
     = (s, w, (400, NewErrorResponse CodeFileTooLarge
                      ("file too large: " +:+ fmt_d (Z.of_nat (length data)) +:+
                       " bytes (max: " +:+ fmt_d (config.MaxSize cfg) +:+ ")")))).
Proof.
  intros Hread mimeType cfg. split.
  - intros Hbad. unfold ImageHandler.Upload, Upload. rewrite Hread.
    fold mimeType. fold cfg. rewrite Hbad. cbn [negb].
    unfold handler.Upload_error, fmt_Errorf_s. cbn [Error].
    rewrite contains_occurs. reflexivity.
  - intros Hok Hbig. unfold ImageHandler.Upload, Upload. rewrite Hread.
    fold mimeType. fold cfg. rewrite Hok. cbn [negb].
    destruct (Z.ltb_spec (config.MaxSize cfg) (Z.of_nat (length data))) as [_|Hle]; [|lia].
    unfold handler.Upload_error. cbn [Error].
    set (msg := "file too large: " +:+ _).
    assert (Hno : handler.contains msg "invalid file type" = false).
    { rewrite contains_occurs.
      destruct (occurs "invalid file type" msg) eqn:Hocc; [|reflexivity].
      apply (occurs_has_char _ _ "v") in Hocc; [|reflexivity].
      unfold msg in Hocc. rewrite !has_char_app, !no_v_in_fmt_d in Hocc.
      discriminate Hocc. }
    rewrite Hno.
    assert (Hyes : handler.contains msg "file too large" = true).
    { rewrite contains_occurs. reflexivity. }
    rewrite Hyes. reflexivity.
Qed.

(** X23.  The later failures of Upload carry the message of their cause,
    and the handler searches the whole message.  A processing failure is
    answered with code 1003, a storage failure with 1004, and a metadata
    failure with 1004 as well (its message "failed to save metadata"
    contains "failed to save"; there is no code of its own), each unless the
    message of the cause contains one of the phrases searched for earlier,
    which then decides.  A failure to read the stream is answered with 500
    and code 500 unless its cause contains one of the four phrases. *)
Theorem Upload_error_by_cause (cause : error) :
  let m := Error cause in
  let earlier (rest : Z * Z) : Z * Z :=
    if handler.contains m "invalid file type" then (400, CodeInvalidFileType)
    else if handler.contains m "file too large" then (400, CodeFileTooLarge)
    else rest in
  handler.Upload_error (fmt_Errorf_w "failed to process image: " cause)
  = earlier (500, CodeProcessingFailed) ∧
  handler.Upload_error (fmt_Errorf_w "failed to save file: " cause)
  = earlier (if handler.contains m "failed to process"
             then (500, CodeProcessingFailed) else (500, CodeStorageFailed)) ∧
  handler.Upload_error (fmt_Errorf_w "failed to save metadata: " cause)
  = earlier (if handler.contains m "failed to process"
             then (500, CodeProcessingFailed) else (500, CodeStorageFailed)) ∧
  handler.Upload_error (fmt_Errorf_w "failed to read file: " cause)
  = earlier (if handler.contains m "failed to process"
             then (500, CodeProcessingFailed)
             else if handler.contains m "failed to save"
                  then (500, CodeStorageFailed) else (500, CodeInternalError)).
Proof.
  cbv zeta. unfold handler.Upload_error, fmt_Errorf_w. cbn [Error].
  rewrite !contains_occurs. repeat split; reflexivity.
Qed.

(** X24.  GetImage's and DeleteImage's "image not found" always reaches the
    client as 404, for every identifier; a failed storage or metadata
    delete is answered 500, unless the message of its cause contains "not
    found", in which case the client is told 404 although the record
    exists. *)
Theorem Get_error_by_cause (id : string) (cause : error) :
  handler.Get_error (errorString ("image not found: " +:+ id)) = (404, CodeNotFound) ∧
  handler.Get_error (fmt_Errorf_w "failed to delete file: " cause)
  = (if handler.contains (Error cause) "not found"
     then (404, CodeNotFound) else (500, CodeInternalError)) ∧
  handler.Get_error (fmt_Errorf_w "failed to delete metadata: " cause)
  = (if handler.contains (Error cause) "not found"
     then (404, CodeNotFound) else (500, CodeInternalError)).
Proof.
  unfold handler.Get_error, fmt_Errorf_w. cbn [Error].
  rewrite !contains_occurs. repeat split; reflexivity.
Qed.

(** ** The endpoints *)

(** X25.  GET /image/:id answers 400 for the empty identifier, 200 with the
    stored record for an identifier in the table, and 404 with code 404 and
    the message "image not found: " + id for every other identifier; it
    never answers 500. *)
Theorem Get_endpoint (s : ImageService) (w : World) (id : string) :
  (ImageHandler.Get s w id).2
  = if String.eqb id "" then
      (400, NewErrorResponse CodeBadRequest "image id is required")
    else match MetadataStore.images (metadata s) !! id with
         | Some img => (200, NewSuccessResponse img)
         | None => (404, NewErrorResponse CodeNotFound ("image not found: " +:+ id))
         end.
Proof.
  unfold ImageHandler.Get. destruct (String.eqb id ""); [reflexivity|].
  unfold GetImage, MetadataStore.Get.
  destruct (MetadataStore.images (metadata s) !! id) as [img|]; [reflexivity|].
  unfold handler.Get_error, fmt_Errorf_s. cbn [Error].
  rewrite contains_occurs. reflexivity.
Qed.

(** X26.  DELETE /image/:id answers 400 for the empty identifier and 404
    for an identifier that is not in the table, both without touching the
    service; and whenever it answers 200 the record was in the table and is
    gone from it. *)
Theorem Delete_endpoint (s : ImageService) (w : World) (id : string) :
  (id = "" →
     ImageHandler.Delete s w id
     = (s, w, (400, NewErrorResponse CodeBadRequest "image id is required"))) ∧
  (id ≠ "" → MetadataStore.images (metadata s) !! id = None →
     (ImageHandler.Delete s w id).1.1 = s ∧
     (ImageHandler.Delete s w id).2
     = (404, NewErrorResponse CodeNotFound ("image not found: " +:+ id))) ∧
  (∀ s' w' body,
     ImageHandler.Delete s w id = (s', w', (200, body)) →
     id ≠ "" ∧ is_Some (MetadataStore.images (metadata s) !! id) ∧
     MetadataStore.images (metadata s')
     = delete id (MetadataStore.images (metadata s)) ∧
     Code body = CodeSuccess).
Proof.
  split; [|split].
  - intros ->. reflexivity.
  - intros Hne Hnone. unfold ImageHandler.Delete.
    destruct (String.eqb_spec id "") as [|_]; [done|].
    unfold DeleteImage, MetadataStore.Get. rewrite Hnone.
    unfold handler.Get_error, fmt_Errorf_s. cbn [Error fst snd].
    rewrite contains_occurs. split; reflexivity.
  - intros s' w' body. unfold ImageHandler.Delete.
    destruct (String.eqb_spec id "") as [->|Hne]; [discriminate|].
    destruct (DeleteImage s w id) as [[s1 w1] [err|]] eqn:Hdel.
    + unfold handler.Get_error. destruct (handler.contains _ _); discriminate.
    + intros Heq. injection Heq as <- <- <-.
      destruct (DeleteImage_success_inv _ _ _ _ _ Hdel) as (w2 & Hin & Hmut & _).
      pose proof (mutate_spec (MDelete id) (metadata s) w2) as Hm.
      rewrite Hmut in Hm. cbv zeta in Hm. injection Hm as Hm _ _.
      repeat split; [exact Hne | exact Hin | by rewrite Hm].
Qed.

(** ** Authentication *)

Lemma cut_at_space_spec (s a b : string) :
  middleware.cut_at_space s = Some (a, b) ↔
  s = a +:+ " " +:+ b ∧ has_char " " a = false.
Proof.
  revert a. induction s as [|c s IH]; intros a; cbn [middleware.cut_at_space].
  - split; [discriminate|]. intros [Heq _]. destruct a; discriminate Heq.
  - destruct (Ascii.eqb_spec c " ") as [->|Hne].
    + split.
      * intros Heq. injection Heq as <- <-. by split.
      * intros [Heq Hno]. destruct a as [|d a].
        -- by injection Heq as ->.
        -- injection Heq as <- _. cbn [has_char] in Hno.
           by rewrite Ascii.eqb_refl in Hno.
    + destruct (middleware.cut_at_space s) as [[a' b']|] eqn:Hcut; split.
      * intros Heq. injection Heq as <- <-.
        destruct (proj1 (IH a') eq_refl) as [-> Hno]. split; [reflexivity|].
        cbn [has_char]. rewrite Hno.
        destruct (Ascii.eqb_spec " " c) as [<-|_]; [done | reflexivity].
      * intros [Heq Hno]. destruct a as [|d a].
        -- injection Heq as -> _. done.
        -- injection Heq as <- Heq. cbn [has_char] in Hno.
           apply orb_false_iff in Hno as [_ Hno].
           pose proof (proj2 (IH a) (conj Heq Hno)) as Hc.
           by injection Hc as <- <-.
      * discriminate.
      * intros [Heq Hno]. destruct a as [|d a].
        -- injection Heq as -> _. done.
        -- injection Heq as <- Heq. cbn [has_char] in Hno.
           apply orb_false_iff in Hno as [_ Hno].
           pose proof (proj2 (IH a) (conj Heq Hno)) as Hc. discriminate Hc.
Qed.

Lemma validateToken_elem (token : string) (allowed : list string) :
  middleware.validateToken token allowed = true ↔ token ∈ allowed.
Proof.
  induction allowed as [|t rest IH]; cbn [middleware.validateToken].
  - split; [discriminate | intros Hin; inversion Hin].
  - destruct (String.eqb_spec t token) as [->|Hne].
    + split; [intros _; left | reflexivity].
    + rewrite IH. split; [intros Hin; by right|].
      intros Hin. inversion Hin; subst; [congruence | assumption].
Qed.

Lemma auth_decision (cfg : middleware.AuthConfig) (authHeader : string) :
  bearer_of cfg authHeader ↔
  ∃ scheme token,
    middleware.cut_at_space authHeader = Some (scheme, token) ∧
    String.eqb (middleware.strings_ToLower scheme) "bearer" = true ∧
    middleware.validateToken token (middleware.Tokens cfg) = true.
Proof.
  unfold bearer_of. split; intros (scheme & token & H1' & H2'); exists scheme, token.
  - destruct H2' as (Hno & Hlow & Hin). split; [by apply cut_at_space_spec|].
    split; [by apply String.eqb_eq | by apply validateToken_elem].
  - destruct H2' as (Hlow & Hin). apply cut_at_space_spec in H1' as [-> Hno].
    repeat split; [exact Hno | by apply String.eqb_eq | by apply validateToken_elem].
Qed.

(** X27.  With authentication switched off every request is handed on.
    With it switched on, a request is handed on exactly when its
    Authorization header is a scheme without a space that reads "bearer" in
    any mix of cases, one space, and one of the configured tokens (the token
    is everything after the first space); every other request is answered
    with status 401, code 401 and no data. *)
Theorem AuthMiddleware_decides (cfg : middleware.AuthConfig) (authHeader : string) :
  (middleware.Enabled cfg = false → middleware.AuthMiddleware cfg authHeader = middleware.Next) ∧
  (middleware.Enabled cfg = true →
     (middleware.AuthMiddleware cfg authHeader = middleware.Next ↔ bearer_of cfg authHeader)) ∧
  (∀ status body,
     middleware.AuthMiddleware cfg authHeader = middleware.Abort status body →
     status = 401 ∧ Code body = 401 ∧ Data body = None).
Proof.
  split; [|split].
  - intros Hoff. unfold middleware.AuthMiddleware. by rewrite Hoff.
  - intros Hon. rewrite auth_decision.
    unfold middleware.AuthMiddleware, middleware.strings_SplitN2. rewrite Hon. cbn [negb].
    destruct (String.eqb_spec authHeader "") as [->|Hne].
    { split; [discriminate|]. intros (a & b & Hcut & _). discriminate Hcut. }
    destruct (middleware.cut_at_space authHeader) as [[scheme token]|].
    + destruct (String.eqb (middleware.strings_ToLower scheme) "bearer") eqn:Hs; cbn [negb].
      * destruct (middleware.validateToken token (middleware.Tokens cfg)) eqn:Hv; cbn [negb].
        -- split; [|done]. intros _. by exists scheme, token.
        -- split; [discriminate|]. intros (a & b & Hcut & _ & Hv').
           injection Hcut as <- <-. congruence.
      * split; [discriminate|]. intros (a & b & Hcut & Hs' & _).
        injection Hcut as <- <-. congruence.
    + split; [discriminate|]. intros (a & b & Hcut & _). discriminate Hcut.
  - intros status body. unfold middleware.AuthMiddleware.
    destruct (negb _); [discriminate|].
    destruct (String.eqb _ _); [intros Heq; by injection Heq as <- <-|].
    destruct (middleware.strings_SplitN2 _) as [|a [|b [|? ?]]];
      try (intros Heq; by injection Heq as <- <-).
    destruct (negb _); [intros Heq; by injection Heq as <- <-|].
    destruct (negb _); [intros Heq; by injection Heq as <- <-|discriminate].
Qed.

(** X28.  The optional middleware marks a request as authenticated exactly
    when the mandatory one would hand it on: with authentication switched on
    it stores true for a valid bearer header and false for every other
    header (the absent one included); switched off it stores nothing. *)
Theorem OptionalAuthMiddleware_agrees (cfg : middleware.AuthConfig) (authHeader : string) :
  (middleware.Enabled cfg = false → middleware.OptionalAuthMiddleware cfg authHeader = None) ∧
  (middleware.Enabled cfg = true →
     ∃ b, middleware.OptionalAuthMiddleware cfg authHeader = Some b ∧
          (b = true ↔ middleware.AuthMiddleware cfg authHeader = middleware.Next)).
Proof.
  split.
  - intros Hoff. unfold middleware.OptionalAuthMiddleware. by rewrite Hoff.
  - intros Hon. unfold middleware.OptionalAuthMiddleware, middleware.AuthMiddleware.
    rewrite Hon. cbn [negb].
    destruct (String.eqb authHeader ""); [by exists false|].
    destruct (middleware.strings_SplitN2 authHeader) as [|a [|b [|? ?]]];
      try by exists false.
    destruct (String.eqb (middleware.strings_ToLower a) "bearer"); cbn [negb];
      [|by exists false].
    destruct (middleware.validateToken b (middleware.Tokens cfg)); cbn [negb];
      [by exists true | by exists false].
Qed.

(** ** Upload, then DeleteImage *)

Lemma upload_record_guard (w : World) (data : bytes) (originalSize : Z)
    (result : ProcessResult) (url : string) :
  let img := upload_record w data originalSize result url in
  resolveStoragePath img = upload_key w ∧
  (String.eqb (resolveStoragePath img) "" ||
   String.eqb (resolveStoragePath img) "/" ||
   negb (isValidStoragePath (resolveStoragePath img))) = false.
Proof.
  cbv zeta.
  assert (Hres : resolveStoragePath (upload_record w data originalSize result url)
                 = upload_key w).
  { unfold resolveStoragePath. cbn [StoragePath upload_record].
    destruct (String.eqb_spec (upload_key w) "") as [Hempty|]; [|done].
    rewrite upload_key_stem in Hempty. by apply app_not_empty in Hempty. }
  split; [exact Hres|]. rewrite Hres, key_guard.
  destruct (String.eqb_spec (upload_key w) "") as [Hempty|_].
  { rewrite upload_key_stem in Hempty. by apply app_not_empty in Hempty. }
  cbn [orb]. rewrite negb_false_iff.
  unfold recognized_ext. rewrite upload_key_stem, Ext_webp. reflexivity.
Qed.

(** X29.  Deleting what was uploaded.  After a successful Upload, a later
    DeleteImage of the returned identifier (in the same process, so with
    the stored path still in memory) finds the record, and the first thing
    it asks of the outside is Storage.Delete of exactly the key the upload
    was saved under; it never answers "image not found".  When it reports
    success, the table is the one before the upload without that
    identifier. *)
Theorem Upload_then_DeleteImage (s : ImageService) (w : World) (file : Reader)
    (originalSize : Z) (s' : ImageService) (w' : World) (res : UploadResult)
    (w1 : World) :
  Upload s w file originalSize = (s', w', inl res) →
  (∃ rest, trace (DeleteImage s' w1 (res_ID res)).1.2
           = trace w1 ++ [EvLock; EvUnlock; EvStorageDelete (upload_key w)] ++ rest) ∧
  (DeleteImage s' w1 (res_ID res)).2
  ≠ Some (errorString ("image not found: " +:+ res_ID res)) ∧
  ((DeleteImage s' w1 (res_ID res)).2 = None →
   MetadataStore.images (metadata (DeleteImage s' w1 (res_ID res)).1.1)
   = delete (res_ID res) (MetadataStore.images (metadata s))).
Proof.
  intros Hup.
  destruct (Upload_success_inv _ _ _ _ _ _ _ Hup)
    as (data & result & url & w2 & _ & _ & _ & _ & _ & Hadd & _ & ->).
  cbn [res_ID].
  pose proof (mutate_spec (MAdd (upload_record w data originalSize result url))
                (metadata s) w2) as Hm.
  cbn [mutate] in Hm. rewrite Hadd in Hm. cbv zeta in Hm. injection Hm as Hm _ _.
  assert (Him : MetadataStore.images (metadata s')
                = <[uuids w (uuid_next w) := upload_record w data originalSize result url]>
                    (MetadataStore.images (metadata s))) by (by rewrite Hm).
  destruct (upload_record_guard w data originalSize result url) as [Hres Hguard].
  unfold DeleteImage, MetadataStore.Get. rewrite Him, lookup_insert_eq.
  cbv zeta. rewrite Hguard, Hres.
  set (wl := MetadataStore.Unlock (MetadataStore.Lock w1)).
  assert (Hwl : trace wl = trace w1 ++ [EvLock; EvUnlock]).
  { unfold wl. cbn. by rewrite <- app_assoc. }
  pose proof (Delete_spec wl (upload_key w)) as [Htr _].
  assert (Hmeta : ∀ wd, trace wd = trace wl ++ [EvStorageDelete (upload_key w)] →
    let run := match MetadataStore.Delete (metadata s') wd (uuids w (uuid_next w)) with
               | (m, w, Some err) =>
                   (with_metadata m s', w,
                    Some (fmt_Errorf_w "failed to delete metadata: " err))
               | (m, w, None) => (with_metadata m s', w, None)
               end in
    (∃ rest, trace run.1.2
             = trace w1 ++ [EvLock; EvUnlock; EvStorageDelete (upload_key w)] ++ rest) ∧
    run.2 ≠ Some (errorString ("image not found: " +:+ uuids w (uuid_next w))) ∧
    (run.2 = None →
     MetadataStore.images (metadata run.1.1)
     = delete (uuids w (uuid_next w)) (MetadataStore.images (metadata s)))).
  { intros wd Hwd. cbv zeta.
    pose proof (mutate_spec (MDelete (uuids w (uuid_next w))) (metadata s') wd) as Hd.
    pose proof (mutate_trace (MDelete (uuids w (uuid_next w))) (metadata s') wd)
      as (evs & Hevs & _).
    cbn [mutate] in Hd, Hevs. cbv zeta in Hd.
    destruct (MetadataStore.Delete (metadata s') wd (uuids w (uuid_next w)))
      as [[m wm] r].
    injection Hd as -> _ _. cbn [fst snd] in Hevs.
    assert (Htrace : ∃ rest, trace wm
              = trace w1 ++ [EvLock; EvUnlock; EvStorageDelete (upload_key w)] ++ rest).
    { exists ([EvLock] ++ evs ++ [EvUnlock]).
      rewrite Hevs, Hwd, Hwl. by rewrite <- !app_assoc. }
    assert (Htable : MetadataStore.images
               (MetadataStore.with_images
                  (mutated (MDelete (uuids w (uuid_next w)))
                     (MetadataStore.images (metadata s'))) (metadata s'))
             = delete (uuids w (uuid_next w)) (MetadataStore.images (metadata s))).
    { cbn [mutated MetadataStore.with_images MetadataStore.images].
      by rewrite Him, delete_insert_eq. }
    destruct r as [err|]; cbn [fst snd metadata with_metadata];
      (split; [exact Htrace|]); (split; [discriminate || done|]);
      intros Hnone; [discriminate Hnone | exact Htable]. }
  destruct (Delete wl (upload_key w)) as [wd [err|]] eqn:Hdel; cbn [fst] in Htr.
  - destruct (negb (os_IsNotExist err)).
    + cbn [fst snd]. split; [|split].
      * exists []. rewrite Htr, Hwl. by rewrite <- !app_assoc.
      * unfold fmt_Errorf_w. discriminate.
      * discriminate.
    + by apply Hmeta.
  - by apply Hmeta.
Qed.

End more_results.

(** * The extra results at concrete inputs *)

Lemma fault_free_run_witness :
  Forall (λ r, r = None) (run_mutations Demo.three_ops Ref.store0 Ref.world0).2 ∧
  MetadataStore.images (run_mutations Demo.three_ops Ref.store0 Ref.world0).1.1
  = {[ "img-1" := Ref.rec 1 ]}.
Proof.
  assert (Hm : ∀ m, ∃ data, json_MarshalIndent m = inl data)
    by (intros m; eexists; reflexivity).
  assert (Hops : Demo.three_ops ≠ []) by discriminate.
  pose proof (fault_free_run Demo.three_ops Ref.store0 Ref.world0
                eq_refl eq_refl Hm Hops) as Hrun.
  destruct (run_mutations Demo.three_ops Ref.store0 Ref.world0) as [[s' w'] rs].
  destruct Hrun as (Hall & _ & Him & _).
  split; [exact Hall|]. cbn [fst]. rewrite Him. vm_compute. reflexivity.
Defined.

Lemma DetectMimeType_agrees_witness :
  DetectMimeType {| delivered := Ref.png_input; read_err := Some EOF |}
  = inl ("image/png", Ref.png_input).
Proof.
  pose proof (DetectMimeType_agrees (Ref.png_input ++ [Byte.x00; Byte.x01])
                {| delivered := Ref.png_input; read_err := Some EOF |}) as Hd.
  cbn [read_err delivered] in Hd. rewrite Hd.
  - vm_compute. reflexivity.
  - by exists [Byte.x00; Byte.x01].
  - left. vm_compute. lia.
Defined.

Lemma Process_success_witness :
  ∃ img,
    webp_Encode img false 75
    = inl (bytes_of "RIFF" ++ [Byte.x01; Byte.x02; Byte.x03; Byte.x04]) ∧
    Bounds_Dx img = 2 ∧ Bounds_Dy img = 2.
Proof.
  destruct (@Process_success Ref.gridImaging 0 Ref.jpeg_plain "image/jpeg"
              {| pr_Data := bytes_of "RIFF" ++ [Byte.x01; Byte.x02; Byte.x03; Byte.x04];
                 pr_Width := 2; pr_Height := 2; pr_Format := "webp" |})
    as (_ & _ & img & q' & _ & _ & Hq & Henc & Hw & Hh).
  - vm_compute. reflexivity.
  - exists img. rewrite Hq in Henc by lia. cbn [pr_Data pr_Width pr_Height] in *. done.
Defined.

Lemma Process_failure_witness :
  Process (NewImageProcessor 75) Ref.jpeg_plain "image/gif"
  = inr (wrapError "failed to decode image: unsupported image type: image/gif"
           (errorString "unsupported image type: image/gif")).
Proof.
  apply (proj1 (@Process_failure Ref.gridImaging (NewImageProcessor 75)
                  Ref.jpeg_plain "image/gif")).
  intros Hin. repeat (apply elem_of_cons in Hin as [Hin|Hin]; [discriminate Hin|]).
  inversion Hin.
Defined.

Lemma Upload_success_stores_witness :
  ∃ img,
    MetadataStore.images
      (metadata (Upload Ref.svc0 Ref.world0 (Ref.reader Ref.jpeg_plain) 10).1.1)
    = {[ "id-0" := img ]} ∧
    StoragePath img = "2024/12/id-0.webp" ∧ OriginalSize img = 10.
Proof.
  destruct (Upload Ref.svc0 Ref.world0 (Ref.reader Ref.jpeg_plain) 10)
    as [[s' w'] r] eqn:Hup.
  assert (Hr : ∃ res, r = inl res ∧ res_ID res = "id-0").
  { change r with (s', w', r).2. rewrite <- Hup. eexists. split; vm_compute; reflexivity. }
  destruct Hr as (res & -> & Hid).
  destruct (Upload_success_stores _ _ _ _ _ _ _ Hup)
    as (img & _ & _ & Him & _ & _ & _ & _ & Hsz & _ & _ & _ & _ & _ & Hkey & _).
  exists img. cbn [fst]. rewrite Him, Hid. split; [|split].
  - vm_compute. reflexivity.
  - rewrite Hkey. vm_compute. reflexivity.
  - exact Hsz.
Defined.

Lemma Upload_success_means_valid_witness :
  ∃ data,
    io_ReadAll (Ref.reader Ref.jpeg_plain) = inl data ∧
    detectMimeFromHeader data ∈ config.AllowedTypes (config.Image_ (config Ref.svc0)) ∧
    Z.of_nat (length data) <= config.MaxSize (config.Image_ (config Ref.svc0)).
Proof.
  destruct (Upload Ref.svc0 Ref.world0 (Ref.reader Ref.jpeg_plain) 10)
    as [[s' w'] r] eqn:Hup.
  assert (Hr : ∃ res, r = inl res).
  { change r with (s', w', r).2. rewrite <- Hup. eexists. vm_compute. reflexivity. }
  destruct Hr as (res & ->).
  destruct (Upload_success_means_valid _ _ _ _ _ _ _ Hup)
    as (data & Hread & Hallowed & _ & _ & Hlen & _).
  by exists data.
Defined.

Lemma uuids_of_world0_inj : Inj (=) (=) (uuids Ref.world0).
Proof.
  intros x y Heq. cbn [uuids Ref.world0] in Heq.
  change ("id-" +:+ pretty x) with (String "i" (String "d" (String "-" (pretty x)))) in Heq.
  change ("id-" +:+ pretty y) with (String "i" (String "d" (String "-" (pretty y)))) in Heq.
  injection Heq as Heq. by apply pretty_nat_inj in Heq.
Qed.

Lemma Upload_failure_changes_nothing_witness :
  (Upload Ref.svc_small Ref.world0 (Ref.reader Ref.png_input) 12).1
  = (Ref.svc_small, Ref.world0).
Proof.
  destruct (Upload Ref.svc_small Ref.world0 (Ref.reader Ref.png_input) 12)
    as [[s' w'] r] eqn:Hup.
  assert (Hr : r = inr (errorString "file too large: 12 bytes (max: 8)")).
  { change r with (s', w', r).2. rewrite <- Hup. vm_compute. reflexivity. }
  subst r.
  destruct (Upload_failure_changes_nothing _ _ _ _ _ _ _ Hup) as (-> & _ & Hw & _).
  - vm_compute. discriminate.
  - cbn [fst]. rewrite Hw; [reflexivity|]. vm_compute. discriminate.
Defined.

Lemma Upload_never_overwrites_witness :
  (MetadataStore.Count
     (metadata (Upload Ref.svc0 Ref.world0 (Ref.reader Ref.jpeg_plain) 10).1.1)
     Ref.world0).2 = 1.
Proof.
  assert (Hissued : ids_issued (metadata Ref.svc0) Ref.world0).
  { intros id [img Hin]. cbn [metadata Ref.svc0 MetadataStore.images Ref.store0] in Hin.
    rewrite lookup_empty in Hin. discriminate Hin. }
  pose proof (Upload_never_overwrites Ref.svc0 Ref.world0 (Ref.reader Ref.jpeg_plain) 10
                uuids_of_world0_inj Hissued) as Hnew.
  destruct (Upload Ref.svc0 Ref.world0 (Ref.reader Ref.jpeg_plain) 10)
    as [[s' w'] r] eqn:Hup.
  assert (Hr : ∃ res, r = inl res).
  { change r with (s', w', r).2. rewrite <- Hup. eexists. vm_compute. reflexivity. }
  destruct Hr as (res & ->).
  destruct Hnew as (_ & _ & Hres). destruct (Hres res eq_refl) as (_ & _ & Hcount).
  cbn [fst]. rewrite Hcount. vm_compute. reflexivity.
Defined.

Lemma missing_image_witness :
  (GetImage Ref.svc0 Ref.world0 "nope").2 = inr (errorString "image not found: nope") ∧
  (DeleteImage Ref.svc0 Ref.world0 "nope").1.1 = Ref.svc0.
Proof.
  assert (Hnone : MetadataStore.images (metadata Ref.svc0) !! "nope" = None)
    by apply lookup_empty.
  pose proof (missing_image Ref.svc0 Ref.world0 "nope" Hnone) as Hm. cbv zeta in Hm.
  destruct Hm as (Hget & _ & Hsame & _). by split.
Defined.

Lemma DeleteImage_success_removes_witness :
  MetadataStore.images
    (metadata (DeleteImage (Ref.svc_with {[ "legacy" := Ref.rec_foreign ]})
                 Ref.world0 "legacy").1.1) = ∅.
Proof.
  destruct (DeleteImage (Ref.svc_with {[ "legacy" := Ref.rec_foreign ]}) Ref.world0 "legacy")
    as [[s' w'] r] eqn:Hdel.
  assert (Hr : r = None).
  { change r with (s', w', r).2. rewrite <- Hdel. vm_compute. reflexivity. }
  subst r.
  destruct (DeleteImage_success_removes _ _ _ _ _ Hdel) as (_ & Him & _).
  cbn [fst]. rewrite Him. vm_compute. reflexivity.
Defined.


Lemma resolveStoragePath_cases_witness :
  resolveStoragePath Ref.rec_foreign = "".
Proof.
  apply (proj1 (proj2 (proj2 (resolveStoragePath_cases Ref.rec_foreign) eq_refl))).
  reflexivity.
Defined.

Lemma Upload_endpoint_validation_witness :
  (ImageHandler.Upload Ref.svc_small Ref.world0 (inl (Ref.reader Ref.png_input, 12))).2
  = (400, NewErrorResponse CodeFileTooLarge "file too large: 12 bytes (max: 8)").
Proof.
  pose proof (Upload_endpoint_validation Ref.svc_small Ref.world0
                (Ref.reader Ref.png_input) 12 Ref.png_input eq_refl) as Hv.
  cbv zeta in Hv. destruct Hv as (_ & Hlarge). rewrite Hlarge.
  - vm_compute. reflexivity.
  - vm_compute. reflexivity.
  - vm_compute. reflexivity.
Defined.

Lemma Delete_endpoint_witness :
  (ImageHandler.Delete (Ref.svc_with (Ref.table 1)) Ref.world0 "img-7").2
  = (404, NewErrorResponse CodeNotFound "image not found: img-7").
Proof.
  destruct (Delete_endpoint (Ref.svc_with (Ref.table 1)) Ref.world0 "img-7")
    as (_ & Habsent & _).
  destruct Habsent as (_ & ->); [discriminate | vm_compute; reflexivity | reflexivity].
Defined.

Lemma AuthMiddleware_decides_witness :
  middleware.AuthMiddleware Demo.auth_on "BeArEr s3cret" = middleware.Next ∧
  middleware.AuthMiddleware Demo.auth_on "Bearer  s3cret" ≠ middleware.Next.
Proof.
  destruct (AuthMiddleware_decides Demo.auth_on "BeArEr s3cret") as (_ & Hon & _).
  split.
  - apply (Hon eq_refl). exists "BeArEr", "s3cret".
    repeat split; [apply list_elem_of_here].
  - vm_compute. discriminate.
Defined.

Lemma OptionalAuthMiddleware_agrees_witness :
  middleware.OptionalAuthMiddleware Demo.auth_on "Basic s3cret" = Some false.
Proof.
  destruct (proj2 (OptionalAuthMiddleware_agrees Demo.auth_on "Basic s3cret") eq_refl)
    as (b & -> & Hb).
  destruct b; [|reflexivity].
  pose proof (proj1 Hb eq_refl) as Hnext. vm_compute in Hnext. discriminate Hnext.
Defined.

Lemma Upload_then_DeleteImage_witness :
  MetadataStore.images
    (metadata
       (DeleteImage (Upload Ref.svc0 Ref.world0 (Ref.reader Ref.jpeg_plain) 10).1.1
          (Upload Ref.svc0 Ref.world0 (Ref.reader Ref.jpeg_plain) 10).1.2 "id-0").1.1)
  = ∅.
Proof.
  assert (Hr : ∃ res, (Upload Ref.svc0 Ref.world0 (Ref.reader Ref.jpeg_plain) 10).2 = inl res
                      ∧ res_ID res = "id-0")
    by (eexists; split; vm_compute; reflexivity).
  destruct Hr as (res & Hr & Hid).
  assert (Hup : Upload Ref.svc0 Ref.world0 (Ref.reader Ref.jpeg_plain) 10
                = ((Upload Ref.svc0 Ref.world0 (Ref.reader Ref.jpeg_plain) 10).1.1,
                   (Upload Ref.svc0 Ref.world0 (Ref.reader Ref.jpeg_plain) 10).1.2,
                   inl res)).
  { rewrite <- Hr. by destruct (Upload _ _ _ _) as [[? ?] ?]. }
  destruct (Upload_then_DeleteImage _ _ _ _ _ _ _
              (Upload Ref.svc0 Ref.world0 (Ref.reader Ref.jpeg_plain) 10).1.2 Hup)
    as (_ & _ & Hnone).
  rewrite Hid in Hnone. rewrite Hnone.
  - vm_compute. reflexivity.
  - vm_compute. reflexivity.
Defined.
